(** * The outline rendering pipeline of react-scan, embedded in Rocq

    A shallow embedding of [new-outlines/index.ts] (the outline aggregator,
    the rect merger, the batched visibility resolver and the scheduling
    glue) and of [new-outlines/outline-renderer.ts] (the direct and the
    offloaded renderer), followed by the properties of the specification
    that were checked against it.

    Conventions of the embedding:
    - JavaScript numbers that hold pixel coordinates, counters and ids are
      integers of [Z].  A [Float32Array] slot holds the single-precision
      image [fround] of the number stored in it.
    - The rect merger computes on doubles.  A finite double is given as an
      integer number of units of [2^-u], with one [u] of at most 1074 for
      all the numbers of a call ([u = 0]: whole pixels; [u = 1074]: every
      finite double is such a number).  Comparisons, [Math.min] and
      [Math.max] are exact on these integers; a sum or a difference is the
      exact one rounded to 53 significant bits, ties to even ([f64_add],
      [f64_sub]).  Infinities and NaN are outside the model.
    - A [Map] that is only accessed through get/set/delete is a [gmap]; a
      [Set] or [Map] that is iterated is an insertion-ordered list without
      duplicates.
    - Object identity (a fiber, a DOM element) is a [positive] reference.
    - Asynchronous code is a state machine: one transition per task of the
      event loop, the micro-tasks it triggers included. *)

From Stdlib Require Import ZArith Lia Bool.
From stdpp Require Import base option list gmap strings pretty.

Local Open Scope Z_scope.

(** ** Rectangles and the rect merger *)

(** [DOMRect]: only the four numbers the pipeline reads. *)
Record DOMRect := new_DOMRect {
  rect_x : Z;
  rect_y : Z;
  rect_width : Z;
  rect_height : Z;
}.

#[global] Instance DOMRect_eq_dec : EqDecision DOMRect.
Proof. solve_decision. Defined.

(** The four accumulators of the loop of [mergeRects]; [None] is
    [undefined]. *)
Record Bounds := mkBounds {
  minX : option Z;
  minY : option Z;
  maxX : option Z;
  maxY : option Z;
}.

(** [acc == null ? v : Math.min(acc, v)] and its [Math.max] twin. *)
Definition min_into (acc : option Z) (v : Z) : option Z :=
  match acc with
  | None => Some v
  | Some m => Some (Z.min m v)
  end.

Definition max_into (acc : option Z) (v : Z) : option Z :=
  match acc with
  | None => Some v
  | Some m => Some (Z.max m v)
  end.

(** The double nearest to an exact result [v]: [v] itself when it has at
    most 53 significant bits, else the nearest number with 53 significant
    bits, ties to the even one. *)
Definition f64_round (v : Z) : Z :=
  let a := Z.abs v in
  if a <? 2 ^ 53 then v
  else
    let e := Z.log2 a - 52 in
    let q := Z.shiftr a e in
    let r := a - Z.shiftl q e in
    let half := Z.shiftl 1 (e - 1) in
    let q' :=
      if r <? half then q
      else if half <? r then q + 1
      else if Z.even q then q else q + 1 in
    Z.sgn v * Z.shiftl q' e.

(** [a + b] and [a - b] on doubles. *)
Definition f64_add (a b : Z) : Z := f64_round (a + b).
Definition f64_sub (a b : Z) : Z := f64_round (a - b).

(** One iteration of the [for] loop of [mergeRects]. *)
Definition mergeRects_body (b : Bounds) (rect : DOMRect) : Bounds :=
  {| minX := min_into (minX b) (rect_x rect);
     minY := min_into (minY b) (rect_y rect);
     maxX := max_into (maxX b) (f64_add (rect_x rect) (rect_width rect));
     maxY := max_into (maxY b) (f64_add (rect_y rect) (rect_height rect)) |}.

(** [mergeRects(rects)].  The result is [None] where the source returns
    [undefined] ([rects[0]] of an empty array). *)
Definition mergeRects (rects : list DOMRect) : option DOMRect :=
  let firstRect := head rects in
  if decide (length rects = 1%nat) then firstRect
  else
    match fold_left mergeRects_body rects (mkBounds None None None None) with
    | {| minX := Some x0; minY := Some y0; maxX := Some x1; maxY := Some y1 |} =>
        Some (new_DOMRect x0 y0 (f64_sub x1 x0) (f64_sub y1 y0))
    | _ => head rects
    end.

(** [m] is the least number of [l]. *)
Definition is_minimum (m : Z) (l : list Z) : Prop :=
  m ∈ l ∧ ∀ v, v ∈ l → m ≤ v.

(** [m] is the greatest number of [l]. *)
Definition is_maximum (m : Z) (l : list Z) : Prop :=
  m ∈ l ∧ ∀ v, v ∈ l → v ≤ m.

Definition rect_right (r : DOMRect) : Z := rect_x r + rect_width r.
Definition rect_bottom (r : DOMRect) : Z := rect_y r + rect_height r.

(** [rect.x + rect.width] and [rect.y + rect.height] as the code computes
    them. *)
Definition rect_right_f64 (r : DOMRect) : Z := f64_add (rect_x r) (rect_width r).
Definition rect_bottom_f64 (r : DOMRect) : Z := f64_add (rect_y r) (rect_height r).

(** The four numbers of a rectangle are below [2^51] units in magnitude:
    the sums and differences [mergeRects] forms of such numbers are
    exact. *)
Definition exact_rect (r : DOMRect) : Prop :=
  Z.abs (rect_x r) < 2 ^ 51 ∧ Z.abs (rect_y r) < 2 ^ 51 ∧
  Z.abs (rect_width r) < 2 ^ 51 ∧ Z.abs (rect_height r) < 2 ^ 51.

(** [outer] covers [inner]: each of the four edges of [inner] lies within
    the edges of [outer]. *)
Definition covers (outer inner : DOMRect) : Prop :=
  rect_x outer ≤ rect_x inner ∧ rect_y outer ≤ rect_y inner ∧
  rect_right inner ≤ rect_right outer ∧ rect_bottom inner ≤ rect_bottom outer.

(** ** Blueprints and the outline aggregator *)

(** A fiber and a DOM element are objects compared by reference. *)
Abbreviation Fiber := positive.
Abbreviation Element := positive.

(** [fiber.stateNode] of a host fiber: a DOM [Element], or anything else
    (a text node, [null]), for which [instanceof Element] is false. *)
Inductive StateNode :=
  | ElementNode (e : Element)
  | OtherNode.

Record BlueprintOutline := {
  bp_name : string;
  bp_count : Z;
  bp_elements : list StateNode;
  bp_didCommit : Z;
}.

(** What [outlineFiber] reads from its argument: the reference itself and
    the answers of the bippy helpers for the fiber's state at the time of
    the call. *)
Record FiberInfo := {
  fiber_ref : Fiber;
  isCompositeFiber : bool;
  (** [fiber.type] when [typeof fiber.type === 'string'] *)
  fiber_type_string : option string;
  (** [getDisplayName(fiber)], [None] for [null] *)
  getDisplayName : option string;
  (** the [stateNode] of each fiber of [getNearestHostFibers(fiber)] *)
  getNearestHostFibers : list StateNode;
  didFiberCommit : bool;
}.

(** The module-level [blueprintMap] and [blueprintMapKeys]. *)
Record Aggregator := {
  blueprintMap : gmap Fiber BlueprintOutline;
  blueprintMapKeys : list Fiber;
}.

Definition empty_aggregator : Aggregator :=
  {| blueprintMap := ∅; blueprintMapKeys := [] |}.

(** [Set.prototype.add] on an insertion-ordered set. *)
Definition set_add `{EqDecision A} (a : A) (s : list A) : list A :=
  if bool_decide (a ∈ s) then s else s ++ [a].

(** [Set.prototype.delete]. *)
Definition set_delete `{EqDecision A} (a : A) (s : list A) : list A :=
  filter (λ b, b ≠ a) s.

(** [new Set(iterable)]. *)
Definition new_Set `{EqDecision A} (l : list A) : list A :=
  fold_left (λ s a, set_add a s) l [].

(** The [name] constant of [outlineFiber]. *)
Definition fiber_name (fiber : FiberInfo) : option string :=
  match fiber_type_string fiber with
  | Some s => Some s
  | None => getDisplayName fiber
  end.

(** [!name] is false: the name is a non-empty string. *)
Definition truthy_name (name : option string) : option string :=
  match name with
  | Some EmptyString | None => None
  | Some s => Some s
  end.

Definition outlineFiber (fiber : FiberInfo) (st : Aggregator) : Aggregator :=
  if negb (isCompositeFiber fiber) then st
  else
    match truthy_name (fiber_name fiber) with
    | None => st
    | Some name =>
        let blueprint := blueprintMap st !! fiber_ref fiber in
        let nearestFibers := getNearestHostFibers fiber in
        let didCommit := didFiberCommit fiber in
        match blueprint with
        | None =>
            {| blueprintMap :=
                 <[fiber_ref fiber :=
                     {| bp_name := name;
                        bp_count := 1;
                        bp_elements := nearestFibers;
                        bp_didCommit := if didCommit then 1 else 0 |}]>
                   (blueprintMap st);
               blueprintMapKeys := set_add (fiber_ref fiber) (blueprintMapKeys st) |}
        | Some blueprint =>
            {| blueprintMap :=
                 <[fiber_ref fiber :=
                     {| bp_name := bp_name blueprint;
                        bp_count := bp_count blueprint + 1;
                        bp_elements := bp_elements blueprint;
                        bp_didCommit := bp_didCommit blueprint |}]>
                   (blueprintMap st);
               blueprintMapKeys := blueprintMapKeys st |}
        end
    end.

(** A sequence of [outlineFiber] calls, oldest first. *)
Definition outlineFibers (fibers : list FiberInfo) (st : Aggregator) : Aggregator :=
  fold_left (λ st fiber, outlineFiber fiber st) fibers st.

(** ** The batched visibility resolver *)

Record IntersectionObserverEntry := {
  target : Element;
  isIntersecting : bool;
  intersectionRect : DOMRect;
}.

(** Where the body of the async generator stands between two tasks. *)
Inductive Phase :=
  | NotStarted   (** created, [next()] not called yet *)
  | Awaiting     (** suspended at [await new Promise(...)] *)
  | Yielded      (** suspended at [yield entries]; the consumer holds the batch *)
  | Completed.   (** the [while] loop has been left *)

#[global] Instance Phase_eq_dec : EqDecision Phase.
Proof. solve_decision. Defined.

(** The local variables of one call of [getBatchedRectMap]. *)
Record Resolver := {
  uniqueElements : list Element;
  seenElements : list Element;
  (** [resolveNext] is not [null] *)
  resolveNext : bool;
  done : bool;
  (** the observer exists and [disconnect] has not been called *)
  observing : bool;
  phase : Phase;
}.

Definition getBatchedRectMap (elements : list Element) : Resolver :=
  {| uniqueElements := new_Set elements;
     seenElements := [];
     resolveNext := false;
     done := false;
     observing := false;
     phase := NotStarted |}.

(** The [for (const entry of entries)] loop of the observer callback:
    the seen-set and [newEntries] after it. *)
Definition partition_new (entries : list IntersectionObserverEntry)
    (seen : list Element) : list Element * list IntersectionObserverEntry :=
  fold_left
    (λ '(seen, newEntries) entry,
       let element := target entry in
       if bool_decide (element ∈ seen) then (seen, newEntries)
       else (seen ++ [element], newEntries ++ [entry]))
    entries (seen, []).

(** The callback given to [new IntersectionObserver].  The second component
    is the value the pending promise is resolved with, if [resolveNext] is
    called. *)
Definition observer_callback (entries : list IntersectionObserverEntry)
    (r : Resolver) : Resolver * option (list IntersectionObserverEntry) :=
  let '(seen, newEntries) := partition_new entries (seenElements r) in
  let deliver := negb (bool_decide (newEntries = [])) && resolveNext r in
  let resolved := if deliver then Some newEntries else None in
  let resolveNext1 := if deliver then false else resolveNext r in
  if bool_decide (length seen = length (uniqueElements r)) then
    ({| uniqueElements := uniqueElements r;
        seenElements := seen;
        resolveNext := resolveNext1;
        done := true;
        observing := false;
        phase := phase r |},
     if resolveNext1 then Some [] else resolved)
  else
    ({| uniqueElements := uniqueElements r;
        seenElements := seen;
        resolveNext := resolveNext1;
        done := done r;
        observing := observing r;
        phase := phase r |},
     resolved).

(** The head of [while (!done)]: leave the loop, or store a fresh
    [resolve] in [resolveNext] and suspend. *)
Definition loop_head (r : Resolver) : Resolver :=
  if done r then
    {| uniqueElements := uniqueElements r; seenElements := seenElements r;
       resolveNext := resolveNext r; done := done r;
       observing := observing r; phase := Completed |}
  else
    {| uniqueElements := uniqueElements r; seenElements := seenElements r;
       resolveNext := true; done := done r;
       observing := observing r; phase := Awaiting |}.

(** The generator resumes with the value of the awaited promise: a
    non-empty batch is yielded, an empty one goes round the loop. *)
Definition resume (entries : list IntersectionObserverEntry) (r : Resolver)
    : Resolver * option (list IntersectionObserverEntry) :=
  if bool_decide (entries = []) then (loop_head r, None)
  else
    ({| uniqueElements := uniqueElements r; seenElements := seenElements r;
        resolveNext := resolveNext r; done := done r;
        observing := observing r; phase := Yielded |},
     Some entries).

(** What happens to a resolver: the consumer asks for the next batch, or
    the browser runs the observer callback with a burst of entries. *)
Inductive ResolverEvent :=
  | Next
  | Notify (entries : list IntersectionObserverEntry).

(** One task.  The second component is the batch handed to the consumer.
    The browser runs the callback of a connected observer only; a promise
    is settled once. *)
Definition resolver_step (r : Resolver) (ev : ResolverEvent)
    : Resolver * option (list IntersectionObserverEntry) :=
  match ev with
  | Next =>
      match phase r with
      | NotStarted =>
          (loop_head
             {| uniqueElements := uniqueElements r; seenElements := seenElements r;
                resolveNext := resolveNext r; done := done r;
                observing := true; phase := phase r |},
           None)
      | Yielded => (loop_head r, None)
      | Awaiting | Completed => (r, None)
      end
  | Notify entries =>
      if observing r then
        let '(r', resolved) := observer_callback entries r in
        match resolved, phase r' with
        | Some value, Awaiting => resume value r'
        | _, _ => (r', None)
        end
      else (r, None)
  end.

(** A run: the final state and the batches produced, oldest first. *)
Fixpoint resolver_run (r : Resolver) (evs : list ResolverEvent)
    : Resolver * list (list IntersectionObserverEntry) :=
  match evs with
  | [] => (r, [])
  | ev :: evs' =>
      let '(r', out) := resolver_step r ev in
      let '(r'', outs) := resolver_run r' evs' in
      (r'', option_list out ++ outs)
  end.

(** What the environment can do in state [r].  An observer is notified
    with a non-empty list of entries, each for an element it observes; a
    consumer asks for the next batch only when its previous request has
    been answered. *)
Definition event_ok (r : Resolver) (ev : ResolverEvent) : bool :=
  match ev with
  | Next => negb (bool_decide (phase r = Awaiting))
  | Notify entries =>
      observing r && negb (bool_decide (entries = []))
      && forallb (λ entry, bool_decide (target entry ∈ uniqueElements r)) entries
  end.

Fixpoint admissible (r : Resolver) (evs : list ResolverEvent) : bool :=
  match evs with
  | [] => true
  | ev :: evs' => event_ok r ev && admissible (resolver_step r ev).1 evs'
  end.

(** The elements notified by the bursts of a run. *)
Definition notified (evs : list ResolverEvent) : list Element :=
  evs ≫= λ ev,
    match ev with
    | Next => []
    | Notify entries => target <$> entries
    end.

(** ** Finalized outlines and [flushOutlines] *)

(** [OutlineData] of [./types]: the record that crosses from the
    aggregator to a renderer. *)
Record OutlineData := {
  od_id : Z;
  od_name : string;
  od_count : Z;
  od_x : Z;
  od_y : Z;
  od_width : Z;
  od_height : Z;
  od_didCommit : Z;
}.

(** The local variables of one call of [flushOutlines] that outlive a
    single batch. *)
Record FlushCycle := {
  fc_resolver : Resolver;
  rectsMap : gmap Element DOMRect;
}.

(** The aggregator with the calls it has made to
    [outlineRenderer.renderOutlines] and the calls of [flushOutlines] it
    has started, in the order they were started. *)
Record Pipeline := {
  aggregator : Aggregator;
  renderCalls : list (list OutlineData);
  flushes : list FlushCycle;
}.

Definition empty_pipeline : Pipeline :=
  {| aggregator := empty_aggregator; renderCalls := []; flushes := [] |}.

(** The first loop of [flushOutlines]: the elements handed to the
    resolver. *)
Definition flush_elements (st : Aggregator) : list Element :=
  blueprintMapKeys st ≫= λ fiber,
    match blueprintMap st !! fiber with
    | None => []
    | Some blueprint =>
        bp_elements blueprint ≫= λ node,
          match node with
          | ElementNode e => [e]
          | OtherNode => []
          end
    end.

(** [flushOutlines()] up to its first suspension: the generator is created
    and [for await] asks for the first batch at once. *)
Definition flush_begin (st : Aggregator) : FlushCycle :=
  {| fc_resolver := (resolver_step (getBatchedRectMap (flush_elements st)) Next).1;
     rectsMap := ∅ |}.

(** The [for (const entry of entries)] loop of the body of [for await]. *)
Definition record_rects (entries : list IntersectionObserverEntry)
    (m : gmap Element DOMRect) : gmap Element DOMRect :=
  fold_left
    (λ m entry,
       let rect := intersectionRect entry in
       if isIntersecting entry
          && negb (rect_width rect =? 0) && negb (rect_height rect =? 0)
       then <[target entry := rect]> m
       else m)
    entries m.

(** The [rects] array collected for one blueprint. *)
Definition blueprint_rects (m : gmap Element DOMRect)
    (blueprint : BlueprintOutline) : list DOMRect :=
  omap
    (λ node, match node with
             | ElementNode e => m !! e
             | OtherNode => None
             end)
    (bp_elements blueprint).

Section Flush.

(** [getFiberId] of bippy. *)
Variable getFiberId : Fiber → Z.

(** The [outlineData] array built after a batch: one record per
    blueprint with at least one known rectangle, in the order of
    [blueprintMapKeys]. *)
Definition collect_outlines (st : Aggregator) (m : gmap Element DOMRect)
    : list OutlineData :=
  omap
    (λ fiber,
       blueprint ← blueprintMap st !! fiber;
       let rects := blueprint_rects m blueprint in
       if bool_decide (rects = []) then None
       else
         rect ← mergeRects rects;
         Some {| od_id := getFiberId fiber;
                 od_name := bp_name blueprint;
                 od_count := bp_count blueprint;
                 od_x := rect_x rect;
                 od_y := rect_y rect;
                 od_width := rect_width rect;
                 od_height := rect_height rect;
                 od_didCommit := bp_didCommit blueprint |})
    (blueprintMapKeys st).

(** The last loop of [flushOutlines].  Deleting the entry an iteration
    of a [Set] stands on does not disturb the iteration: every key is
    visited. *)
Definition clear_blueprints (st : Aggregator) : Aggregator :=
  fold_left
    (λ st fiber,
       {| blueprintMap := delete fiber (blueprintMap st);
          blueprintMapKeys := set_delete fiber (blueprintMapKeys st) |})
    (blueprintMapKeys st) st.

(** The body of [for await] for one batch, then the request for the
    next batch. *)
Definition flush_batch (entries : list IntersectionObserverEntry)
    (p : Pipeline) (fc : FlushCycle) : Pipeline * FlushCycle :=
  let m := record_rects entries (rectsMap fc) in
  let outlineData := collect_outlines (aggregator p) m in
  ({| aggregator := aggregator p;
      renderCalls :=
        if bool_decide (outlineData = []) then renderCalls p
        else renderCalls p ++ [outlineData];
      flushes := flushes p |},
   {| fc_resolver := (resolver_step (fc_resolver fc) Next).1; rectsMap := m |}).

(** A burst of the observer of one flush: the callback runs, the batch
    it hands over (if any) is processed, and when the generator has
    finished the blueprints are cleared. *)
Definition flush_notify (entries : list IntersectionObserverEntry)
    (p : Pipeline) (fc : FlushCycle) : Pipeline * FlushCycle :=
  let '(r, batch) := resolver_step (fc_resolver fc) (Notify entries) in
  let fc1 := {| fc_resolver := r; rectsMap := rectsMap fc |} in
  let '(p2, fc2) :=
    match batch with
    | Some batch => flush_batch batch p fc1
    | None => (p, fc1)
    end in
  if bool_decide (phase (fc_resolver fc2) = Completed)
     && negb (bool_decide (phase (fc_resolver fc) = Completed))
  then
    ({| aggregator := clear_blueprints (aggregator p2);
        renderCalls := renderCalls p2;
        flushes := flushes p2 |}, fc2)
  else (p2, fc2).

(** What happens to the pipeline between two tasks. *)
Inductive PipelineEvent :=
  | OnRender (fiber : FiberInfo)             (** [outlineFiber(fiber)] *)
  | Flush                                    (** [flushOutlines()] *)
  | Intersection (i : nat) (entries : list IntersectionObserverEntry).
    (** the observer of the [i]-th flush is notified *)

Definition pipeline_step (p : Pipeline) (ev : PipelineEvent) : Pipeline :=
  match ev with
  | OnRender fiber =>
      {| aggregator := outlineFiber fiber (aggregator p);
         renderCalls := renderCalls p;
         flushes := flushes p |}
  | Flush =>
      {| aggregator := aggregator p;
         renderCalls := renderCalls p;
         flushes := flushes p ++ [flush_begin (aggregator p)] |}
  | Intersection i entries =>
      match flushes p !! i with
      | None => p
      | Some fc =>
          let '(p', fc') := flush_notify entries p fc in
          {| aggregator := aggregator p';
             renderCalls := renderCalls p';
             flushes := <[i := fc']> (flushes p') |}
      end
  end.

Definition pipeline_run (p : Pipeline) (evs : list PipelineEvent) : Pipeline :=
  fold_left pipeline_step evs p.

(** The environment notifies the observer of a flush as [event_ok]
    allows. *)
Definition pipeline_event_ok (p : Pipeline) (ev : PipelineEvent) : bool :=
  match ev with
  | OnRender _ | Flush => true
  | Intersection i entries =>
      match flushes p !! i with
      | None => false
      | Some fc => event_ok (fc_resolver fc) (Notify entries)
      end
  end.

Fixpoint pipeline_admissible (p : Pipeline) (evs : list PipelineEvent) : bool :=
  match evs with
  | [] => true
  | ev :: evs' =>
      pipeline_event_ok p ev && pipeline_admissible (pipeline_step p ev) evs'
  end.

(** The pipeline with the animation frames the interval timer of
    [getCanvasEl] has requested and the host has not run yet. *)
Record TimedPipeline := {
  timed_pipeline : Pipeline;
  pending_frames : nat;
}.

Definition new_TimedPipeline : TimedPipeline :=
  {| timed_pipeline := empty_pipeline; pending_frames := 0 |}.

(** The callback of [setInterval] in [getCanvasEl]: an animation frame is
    requested when [blueprintMapKeys.size] is not zero. *)
Definition interval_tick (t : TimedPipeline) : TimedPipeline :=
  if bool_decide (blueprintMapKeys (aggregator (timed_pipeline t)) = []) then t
  else {| timed_pipeline := timed_pipeline t;
          pending_frames := S (pending_frames t) |}.

(** The callback given to [requestAnimationFrame], run by the host in a
    later task: [flushOutlines()]. *)
Definition flush_frame (t : TimedPipeline) : TimedPipeline :=
  match pending_frames t with
  | O => t
  | S n => {| timed_pipeline := pipeline_step (timed_pipeline t) Flush;
              pending_frames := n |}
  end.

(** What happens between two tasks to the pipeline driven by the timer:
    the interval timer ticks, the host runs a requested frame, a fiber
    renders or the observer of a flush is notified. *)
Inductive TimedEvent :=
  | Tick
  | Frame
  | RenderTask (fiber : FiberInfo)
  | ObserverTask (i : nat) (entries : list IntersectionObserverEntry).

Definition timed_step (t : TimedPipeline) (ev : TimedEvent) : TimedPipeline :=
  match ev with
  | Tick => interval_tick t
  | Frame => flush_frame t
  | RenderTask fiber =>
      {| timed_pipeline := pipeline_step (timed_pipeline t) (OnRender fiber);
         pending_frames := pending_frames t |}
  | ObserverTask i entries =>
      {| timed_pipeline :=
           pipeline_step (timed_pipeline t) (Intersection i entries);
         pending_frames := pending_frames t |}
  end.

Definition timed_run (t : TimedPipeline) (evs : list TimedEvent)
    : TimedPipeline :=
  fold_left timed_step evs t.

(** The environment notifies the observer of a flush as [event_ok]
    allows; a frame runs only if one has been requested. *)
Definition timed_event_ok (t : TimedPipeline) (ev : TimedEvent) : bool :=
  match ev with
  | Tick | RenderTask _ => true
  | Frame => negb (bool_decide (pending_frames t = 0%nat))
  | ObserverTask i entries =>
      pipeline_event_ok (timed_pipeline t) (Intersection i entries)
  end.

Fixpoint timed_admissible (t : TimedPipeline) (evs : list TimedEvent) : bool :=
  match evs with
  | [] => true
  | ev :: evs' => timed_event_ok t ev && timed_admissible (timed_step t ev) evs'
  end.

End Flush.

(** ** The renderer interface *)

Record Size := {
  sz_width : Z;
  sz_height : Z;
}.

(** A call through [interface OutlineRenderer]. *)
Inductive RendererCall :=
  | RenderOutlines (outlines : list OutlineData)
  | Resize (size : Size)
  | ScrollBy (deltaX deltaY : Z)
  | Dispose.

(** [ActiveOutline] of [./types]. *)
Record ActiveOutline := {
  ao_id : Z;
  ao_name : string;
  ao_count : Z;
  ao_x : Z;
  ao_y : Z;
  ao_width : Z;
  ao_height : Z;
  ao_frame : Z;
  ao_targetX : Z;
  ao_targetY : Z;
  ao_targetWidth : Z;
  ao_targetHeight : Z;
  ao_didCommit : Z;
}.

(** [String(id)] of an integer: its decimal numeral. *)
Definition String_of (id : Z) : string := pretty id.

(** ** The direct renderer *)

(** The [outline] literal of [updateOutlines]. *)
Definition new_outline (o : OutlineData) : ActiveOutline :=
  {| ao_id := od_id o;
     ao_name := od_name o;
     ao_count := od_count o;
     ao_x := od_x o;
     ao_y := od_y o;
     ao_width := od_width o;
     ao_height := od_height o;
     ao_frame := 0;
     ao_targetX := od_x o;
     ao_targetY := od_y o;
     ao_targetWidth := od_width o;
     ao_targetHeight := od_height o;
     ao_didCommit := od_didCommit o |}.

(** The assignments to [existingOutline]. *)
Definition retarget (existingOutline : ActiveOutline) (o : OutlineData)
    : ActiveOutline :=
  {| ao_id := ao_id existingOutline;
     ao_name := ao_name existingOutline;
     ao_count := ao_count existingOutline + 1;
     ao_x := ao_x existingOutline;
     ao_y := ao_y existingOutline;
     ao_width := ao_width existingOutline;
     ao_height := ao_height existingOutline;
     ao_frame := 0;
     ao_targetX := od_x o;
     ao_targetY := od_y o;
     ao_targetWidth := od_width o;
     ao_targetHeight := od_height o;
     ao_didCommit := od_didCommit o |}.

(** One iteration of the loop of [updateOutlines]. *)
Definition updateOutline (activeOutlines : gmap string ActiveOutline)
    (o : OutlineData) : gmap string ActiveOutline :=
  let outline := new_outline o in
  let key := String_of (ao_id outline) in
  match activeOutlines !! key with
  | Some existingOutline => <[key := retarget existingOutline o]> activeOutlines
  | None => <[key := outline]> activeOutlines
  end.

Definition updateOutlines (activeOutlines : gmap string ActiveOutline)
    (outlines : list OutlineData) : gmap string ActiveOutline :=
  fold_left updateOutline outlines activeOutlines.

(** The canvas element, as far as the renderers write to it. *)
Record Canvas := {
  style_width : string;
  style_height : string;
  canvas_width : Z;
  canvas_height : Z;
}.

(** The fields of a [CanvasOutlineRenderer], followed by what the host
    holds for it: the pending [requestAnimationFrame(this.draw)] requests
    and the calls of [drawCanvas] made so far, each with the outlines it
    was given. *)
Record CanvasOutlineRenderer := {
  c_activeOutlines : gmap string ActiveOutline;
  c_animationFrameId : option positive;
  (** [this.ctx]: the scale of its transform, [None] for [null] *)
  c_ctx : option Z;
  c_isResizeScheduled : bool;
  c_canvas : Canvas;
  c_size : Size;
  c_dpr : Z;
  c_frameRequests : list positive;
  c_nextHandle : positive;
  c_drawn : list (gmap string ActiveOutline);
}.

Definition canvas_set_outlines (m : gmap string ActiveOutline)
    (r : CanvasOutlineRenderer) : CanvasOutlineRenderer :=
  {| c_activeOutlines := m;
     c_animationFrameId := c_animationFrameId r; c_ctx := c_ctx r;
     c_isResizeScheduled := c_isResizeScheduled r; c_canvas := c_canvas r;
     c_size := c_size r; c_dpr := c_dpr r;
     c_frameRequests := c_frameRequests r; c_nextHandle := c_nextHandle r;
     c_drawn := c_drawn r |}.

Definition canvas_set_frameId (id : option positive)
    (r : CanvasOutlineRenderer) : CanvasOutlineRenderer :=
  {| c_activeOutlines := c_activeOutlines r;
     c_animationFrameId := id; c_ctx := c_ctx r;
     c_isResizeScheduled := c_isResizeScheduled r; c_canvas := c_canvas r;
     c_size := c_size r; c_dpr := c_dpr r;
     c_frameRequests := c_frameRequests r; c_nextHandle := c_nextHandle r;
     c_drawn := c_drawn r |}.

Definition canvas_set_resize (size : Size) (scheduled : bool)
    (r : CanvasOutlineRenderer) : CanvasOutlineRenderer :=
  {| c_activeOutlines := c_activeOutlines r;
     c_animationFrameId := c_animationFrameId r; c_ctx := c_ctx r;
     c_isResizeScheduled := scheduled; c_canvas := c_canvas r;
     c_size := size; c_dpr := c_dpr r;
     c_frameRequests := c_frameRequests r; c_nextHandle := c_nextHandle r;
     c_drawn := c_drawn r |}.

(** [this.animationFrameId = requestAnimationFrame(this.draw)]. *)
Definition canvas_requestFrame (r : CanvasOutlineRenderer)
    : CanvasOutlineRenderer :=
  {| c_activeOutlines := c_activeOutlines r;
     c_animationFrameId := Some (c_nextHandle r); c_ctx := c_ctx r;
     c_isResizeScheduled := c_isResizeScheduled r; c_canvas := c_canvas r;
     c_size := c_size r; c_dpr := c_dpr r;
     c_frameRequests := c_frameRequests r ++ [c_nextHandle r];
     c_nextHandle := Pos.succ (c_nextHandle r);
     c_drawn := c_drawn r |}.

(** [setCanvasSize] of the direct renderer.  The two style strings are
    the template literals of the source as written. *)
Definition canvas_setCanvasSize (size : Size) (r : CanvasOutlineRenderer)
    : CanvasOutlineRenderer :=
  {| c_activeOutlines := c_activeOutlines r;
     c_animationFrameId := c_animationFrameId r;
     c_ctx := match c_ctx r with Some _ => Some (c_dpr r) | None => None end;
     c_isResizeScheduled := c_isResizeScheduled r;
     c_canvas :=
       {| style_width := "{size.width}px";
          style_height := "{size.height}px";
          canvas_width := sz_width size * c_dpr r;
          canvas_height := sz_height size * c_dpr r |};
     c_size := c_size r; c_dpr := c_dpr r;
     c_frameRequests := c_frameRequests r; c_nextHandle := c_nextHandle r;
     c_drawn := c_drawn r |}.

(** [new CanvasOutlineRenderer(canvas, size, dpr)]; [has_ctx] tells
    whether [canvas.getContext] returned a context. *)
Definition new_CanvasOutlineRenderer (has_ctx : bool) (size : Size) (dpr : Z)
    : CanvasOutlineRenderer :=
  canvas_setCanvasSize size
    {| c_activeOutlines := ∅;
       c_animationFrameId := None;
       c_ctx := if has_ctx then Some 1 else None;
       c_isResizeScheduled := false;
       c_canvas := {| style_width := ""; style_height := "";
                      canvas_width := 300; canvas_height := 150 |};
       c_size := size; c_dpr := dpr;
       c_frameRequests := []; c_nextHandle := 1%positive;
       c_drawn := [] |}.

Inductive CanvasEvent :=
  | CanvasCall (call : RendererCall)
  | AnimationFrame    (** the host runs the oldest pending frame request *)
  | ResizeTimeout.    (** the timer set by [resize] fires *)

Section DirectRenderer.

(** [drawCanvas] and [updateScroll] of [./canvas]: the first returns
    the outlines as it leaves them and [shouldContinue]. *)
Variable drawCanvas :
  gmap string ActiveOutline → gmap string ActiveOutline * bool.
Variable updateScroll :
  gmap string ActiveOutline → Z → Z → gmap string ActiveOutline.

(** The [draw] arrow function. *)
Definition canvas_draw (r : CanvasOutlineRenderer) : CanvasOutlineRenderer :=
  match c_ctx r with
  | None => r
  | Some _ =>
      let '(outlines, shouldContinue) := drawCanvas (c_activeOutlines r) in
      let r1 :=
        {| c_activeOutlines := outlines;
           c_animationFrameId := c_animationFrameId r; c_ctx := c_ctx r;
           c_isResizeScheduled := c_isResizeScheduled r;
           c_canvas := c_canvas r; c_size := c_size r; c_dpr := c_dpr r;
           c_frameRequests := c_frameRequests r;
           c_nextHandle := c_nextHandle r;
           c_drawn := c_drawn r ++ [c_activeOutlines r] |} in
      if shouldContinue then canvas_requestFrame r1
      else canvas_set_frameId None r1
  end.

Definition canvas_scroll (deltaX deltaY : Z) (r : CanvasOutlineRenderer)
    : CanvasOutlineRenderer :=
  canvas_set_outlines (updateScroll (c_activeOutlines r) deltaX deltaY) r.

Definition canvas_resize (size : Size) (r : CanvasOutlineRenderer)
    : CanvasOutlineRenderer :=
  canvas_set_resize size true r.

(** The callback [resize] hands to [setTimeout]. *)
Definition canvas_resize_timeout (r : CanvasOutlineRenderer)
    : CanvasOutlineRenderer :=
  if c_isResizeScheduled r then
    canvas_set_resize (c_size r) false
      (canvas_draw (canvas_setCanvasSize (c_size r) r))
  else r.

Definition canvas_renderOutlines (outlines : list OutlineData)
    (r : CanvasOutlineRenderer) : CanvasOutlineRenderer :=
  let r1 := canvas_set_outlines (updateOutlines (c_activeOutlines r) outlines) r in
  match c_animationFrameId r1 with
  | Some _ => r1
  | None => canvas_requestFrame r1
  end.

(** [dispose(): void {}]. *)
Definition canvas_dispose (r : CanvasOutlineRenderer) : CanvasOutlineRenderer := r.

Definition canvas_call (call : RendererCall) (r : CanvasOutlineRenderer)
    : CanvasOutlineRenderer :=
  match call with
  | RenderOutlines outlines => canvas_renderOutlines outlines r
  | Resize size => canvas_resize size r
  | ScrollBy deltaX deltaY => canvas_scroll deltaX deltaY r
  | Dispose => canvas_dispose r
  end.

Definition canvas_step (r : CanvasOutlineRenderer) (ev : CanvasEvent)
    : CanvasOutlineRenderer :=
  match ev with
  | CanvasCall call => canvas_call call r
  | AnimationFrame =>
      match c_frameRequests r with
      | [] => r
      | _ :: rest =>
          canvas_draw
            {| c_activeOutlines := c_activeOutlines r;
               c_animationFrameId := c_animationFrameId r; c_ctx := c_ctx r;
               c_isResizeScheduled := c_isResizeScheduled r;
               c_canvas := c_canvas r; c_size := c_size r; c_dpr := c_dpr r;
               c_frameRequests := rest; c_nextHandle := c_nextHandle r;
               c_drawn := c_drawn r |}
      end
  | ResizeTimeout => canvas_resize_timeout r
  end.

Definition canvas_run (r : CanvasOutlineRenderer) (evs : list CanvasEvent)
    : CanvasOutlineRenderer :=
  fold_left canvas_step evs r.

End DirectRenderer.

(** ** The offloaded renderer *)

(** A single-precision number that is the image of an integer: a finite
    integer value, or an infinity. *)
Inductive float32 :=
  | F32 (v : Z)
  | F32_inf (negative : bool).

#[global] Instance float32_eq_dec : EqDecision float32.
Proof. solve_decision. Defined.

(** The number a [Float32Array] holds after an integer is stored in it:
    the nearest number with a 24-bit significand, ties to even, and an
    infinity from [2^128] on. *)
Definition fround (v : Z) : float32 :=
  let a := Z.abs v in
  if a <? 2 ^ 24 then F32 v
  else
    let e := Z.log2 a - 23 in
    let q := Z.shiftr a e in
    let r := a - Z.shiftl q e in
    let half := Z.shiftl 1 (e - 1) in
    let q' :=
      if r <? half then q
      else if half <? r then q + 1
      else if Z.even q then q else q + 1 in
    let m := Z.shiftl q' e in
    if 2 ^ 128 <=? m then F32_inf (v <? 0) else F32 (Z.sgn v * m).

Definition OUTLINE_ARRAY_SIZE : nat := 7.

(** An [ArrayBuffer] (or [SharedArrayBuffer]): its length in bytes, and
    its contents read four bytes at a time as single-precision numbers,
    the way a [Float32Array] over it reads them. *)
Record ArrayBuffer := {
  byteLength : nat;
  f32_slots : list float32;
}.

(** [new SupportedArrayBuffer(n)]: [n] zero bytes. *)
Definition new_ArrayBuffer (n : nat) : ArrayBuffer :=
  {| byteLength := n; f32_slots := replicate (n / 4) (F32 0) |}.

(** [sharedView[i] = v].  A store past the end of a typed array is
    ignored. *)
Definition f32_store (i : nat) (v : Z) (b : ArrayBuffer) : ArrayBuffer :=
  {| byteLength := byteLength b; f32_slots := <[i := fround v]> (f32_slots b) |}.

(** The callback of [outlines.forEach] in [renderOutlines]. *)
Definition pack_outline (acc : ArrayBuffer * list (option string))
    (item : nat * OutlineData) : ArrayBuffer * list (option string) :=
  let '(sharedView, outlineNames) := acc in
  let '(i, outline) := item in
  let scaledIndex := (i * OUTLINE_ARRAY_SIZE)%nat in
  let v0 := f32_store scaledIndex (od_id outline) sharedView in
  let v1 := f32_store (scaledIndex + 1) (od_count outline) v0 in
  let v2 := f32_store (scaledIndex + 2) (od_x outline) v1 in
  let v3 := f32_store (scaledIndex + 3) (od_y outline) v2 in
  let v4 := f32_store (scaledIndex + 4) (od_width outline) v3 in
  let v5 := f32_store (scaledIndex + 5) (od_height outline) v4 in
  let v6 := f32_store (scaledIndex + 6) (od_didCommit outline) v5 in
  (v6, <[i := Some (od_name outline)]> outlineNames).

(** The buffer and the names [renderOutlines] posts.  [new Array(n)] is
    [n] holes, [None] here. *)
Definition pack_outlines (outlines : list OutlineData)
    : ArrayBuffer * list (option string) :=
  let arrayBuffer :=
    new_ArrayBuffer (length outlines * OUTLINE_ARRAY_SIZE * 4) in
  let outlineNames := replicate (length outlines) None in
  fold_left pack_outline (imap (λ i outline, (i, outline)) outlines)
    (arrayBuffer, outlineNames).

(** The messages of the main thread to the worker. *)
Inductive WorkerMessage :=
  | MsgInit (width height dpr : Z)
  | MsgDrawOutlines (data : ArrayBuffer) (names : list (option string))
  | MsgResize (width height dpr : Z)
  | MsgScroll (deltaX deltaY : Z).

(** The fields of a [WorkerOutlineRenderer], the style of its canvas
    element, and the worker: whether [terminate] has been called, and the
    messages delivered to it, oldest first. *)
Record WorkerOutlineRenderer := {
  w_size : Size;
  w_dpr : Z;
  w_isResizeScheduled : bool;
  w_style_width : string;
  w_style_height : string;
  w_terminated : bool;
  w_inbox : list WorkerMessage;
}.

(** [this.worker.postMessage(msg)]: nothing reaches a terminated worker. *)
Definition worker_postMessage (msg : WorkerMessage) (r : WorkerOutlineRenderer)
    : WorkerOutlineRenderer :=
  if w_terminated r then r
  else
    {| w_size := w_size r; w_dpr := w_dpr r;
       w_isResizeScheduled := w_isResizeScheduled r;
       w_style_width := w_style_width r; w_style_height := w_style_height r;
       w_terminated := w_terminated r;
       w_inbox := w_inbox r ++ [msg] |}.

(** [setCanvasSize] of the offloaded renderer. *)
Definition worker_setCanvasSize (size : Size) (r : WorkerOutlineRenderer)
    : WorkerOutlineRenderer :=
  {| w_size := w_size r; w_dpr := w_dpr r;
     w_isResizeScheduled := w_isResizeScheduled r;
     w_style_width := pretty (sz_width size) +:+ "px";
     w_style_height := pretty (sz_height size) +:+ "px";
     w_terminated := w_terminated r;
     w_inbox := w_inbox r |}.

Definition worker_set_resize (size : Size) (scheduled : bool)
    (r : WorkerOutlineRenderer) : WorkerOutlineRenderer :=
  {| w_size := size; w_dpr := w_dpr r;
     w_isResizeScheduled := scheduled;
     w_style_width := w_style_width r; w_style_height := w_style_height r;
     w_terminated := w_terminated r;
     w_inbox := w_inbox r |}.

(** [new WorkerOutlineRenderer(canvasEl, size, dpr)]. *)
Definition new_WorkerOutlineRenderer (size : Size) (dpr : Z)
    : WorkerOutlineRenderer :=
  worker_postMessage
    (MsgInit (sz_width size * dpr) (sz_height size * dpr) dpr)
    (worker_setCanvasSize size
       {| w_size := size; w_dpr := dpr; w_isResizeScheduled := false;
          w_style_width := ""; w_style_height := "";
          w_terminated := false; w_inbox := [] |}).

Definition worker_dispose (r : WorkerOutlineRenderer) : WorkerOutlineRenderer :=
  {| w_size := w_size r; w_dpr := w_dpr r;
     w_isResizeScheduled := w_isResizeScheduled r;
     w_style_width := w_style_width r; w_style_height := w_style_height r;
     w_terminated := true;
     w_inbox := w_inbox r |}.

Definition worker_renderOutlines (outlines : list OutlineData)
    (r : WorkerOutlineRenderer) : WorkerOutlineRenderer :=
  let '(arrayBuffer, outlineNames) := pack_outlines outlines in
  worker_postMessage (MsgDrawOutlines arrayBuffer outlineNames) r.

Definition worker_resize (size : Size) (r : WorkerOutlineRenderer)
    : WorkerOutlineRenderer :=
  worker_set_resize size true r.

(** The callback [resize] hands to [setTimeout]. *)
Definition worker_resize_timeout (r : WorkerOutlineRenderer)
    : WorkerOutlineRenderer :=
  if w_isResizeScheduled r then
    let r1 := worker_setCanvasSize (w_size r) r in
    let r2 :=
      worker_postMessage
        (MsgResize (sz_width (w_size r1)) (sz_height (w_size r1)) (w_dpr r1)) r1 in
    worker_set_resize (w_size r2) false r2
  else r.

Definition worker_scroll (deltaX deltaY : Z) (r : WorkerOutlineRenderer)
    : WorkerOutlineRenderer :=
  worker_postMessage (MsgScroll deltaX deltaY) r.

Definition worker_call (call : RendererCall) (r : WorkerOutlineRenderer)
    : WorkerOutlineRenderer :=
  match call with
  | RenderOutlines outlines => worker_renderOutlines outlines r
  | Resize size => worker_resize size r
  | ScrollBy deltaX deltaY => worker_scroll deltaX deltaY r
  | Dispose => worker_dispose r
  end.

Inductive WorkerEvent :=
  | WorkerCall (call : RendererCall)
  | WorkerResizeTimeout.   (** the timer set by [resize] fires *)

Definition worker_step (r : WorkerOutlineRenderer) (ev : WorkerEvent)
    : WorkerOutlineRenderer :=
  match ev with
  | WorkerCall call => worker_call call r
  | WorkerResizeTimeout => worker_resize_timeout r
  end.

Definition worker_run (r : WorkerOutlineRenderer) (evs : list WorkerEvent)
    : WorkerOutlineRenderer :=
  fold_left worker_step evs r.

(** ** The scheduling glue of [getCanvasEl] *)

(** The variables of the scroll listener, the deltas captured by the
    closure of its pending timer, and the calls made to
    [outlineRenderer] so far. *)
Record ScrollGlue := {
  prevScrollX : Z;
  prevScrollY : Z;
  isScrollScheduled : bool;
  scroll_timer : option (Z * Z);
  glue_calls : list RendererCall;
}.

(** The listeners are installed with the window scrolled to
    [(scrollX, scrollY)]. *)
Definition new_ScrollGlue (scrollX scrollY : Z) : ScrollGlue :=
  {| prevScrollX := scrollX; prevScrollY := scrollY;
     isScrollScheduled := false; scroll_timer := None; glue_calls := [] |}.

Inductive GlueEvent :=
  | WindowScroll (scrollX scrollY : Z)  (** a [scroll] event, the window now at this offset *)
  | ScrollTimeout                       (** the timer of the scroll listener fires *)
  | WindowResize (innerWidth innerHeight : Z).

Definition glue_step (g : ScrollGlue) (ev : GlueEvent) : ScrollGlue :=
  match ev with
  | WindowScroll scrollX scrollY =>
      let deltaX := scrollX - prevScrollX g in
      let deltaY := scrollY - prevScrollY g in
      if isScrollScheduled g then
        {| prevScrollX := scrollX; prevScrollY := scrollY;
           isScrollScheduled := isScrollScheduled g;
           scroll_timer := scroll_timer g;
           glue_calls := glue_calls g |}
      else
        {| prevScrollX := scrollX; prevScrollY := scrollY;
           isScrollScheduled := true;
           scroll_timer := Some (deltaX, deltaY);
           glue_calls := glue_calls g |}
  | ScrollTimeout =>
      match scroll_timer g with
      | None => g
      | Some (deltaX, deltaY) =>
          {| prevScrollX := prevScrollX g; prevScrollY := prevScrollY g;
             isScrollScheduled := false;
             scroll_timer := None;
             glue_calls := glue_calls g ++ [ScrollBy deltaX deltaY] |}
      end
  | WindowResize innerWidth innerHeight =>
      {| prevScrollX := prevScrollX g; prevScrollY := prevScrollY g;
         isScrollScheduled := isScrollScheduled g;
         scroll_timer := scroll_timer g;
         glue_calls :=
           glue_calls g
           ++ [Resize {| sz_width := innerWidth; sz_height := innerHeight |}] |}
  end.

Definition glue_run (g : ScrollGlue) (evs : list GlueEvent) : ScrollGlue :=
  fold_left glue_step evs g.

(** ** The instrumentation callback [onRender] *)

(** What the [onRender] handler of [initReactScanInstrumentation] reads
    from the stores at one call. *)
Record RenderEnv := {
  (** [ReactScanInternals.instrumentation?.isPaused.value]; [None] is
      [undefined] *)
  env_isPaused : option bool;
  (** [Store.inspectState.value.kind] *)
  env_inspectKind : string;
  (** [ReactScanInternals.options.value.log] is truthy *)
  env_log : bool;
  (** [ReactScanInternals.options.value.onRender] is set *)
  env_hasOnRender : bool;
  (** [Date.now()] *)
  env_now : Z;
}.

Section Instrumentation.

(** [getFiberId] of bippy, and the type of the [renders] argument. *)
Variable getFiberId : Fiber → Z.
Variable Renders : Type.

(** The pipeline and its timer with what else [onRender] writes to: the
    calls of [log], [inspectorUpdateSignal.value], and the calls of the
    user's [onRender] option. *)
Record Host := {
  host_timed : TimedPipeline;
  host_logged : list Renders;
  host_inspectorSignal : option Z;
  host_userCalls : list (Fiber * Renders);
}.

Definition host_pipeline (h : Host) : Pipeline := timed_pipeline (host_timed h).

Definition new_Host : Host :=
  {| host_timed := new_TimedPipeline; host_logged := [];
     host_inspectorSignal := None; host_userCalls := [] |}.

(** The [onRender] handler. *)
Definition onRender (env : RenderEnv) (fiber : FiberInfo) (renders : Renders)
    (h : Host) : Host :=
  let isOverlayPaused := default false (env_isPaused env) in
  let isInspectorInactive :=
    bool_decide (env_inspectKind env = "inspect-off")
    || bool_decide (env_inspectKind env = "uninitialized") in
  let shouldFullyAbort := isOverlayPaused && isInspectorInactive in
  if shouldFullyAbort then h
  else
    {| host_timed :=
         if isOverlayPaused then host_timed h
         else timed_step getFiberId (host_timed h) (RenderTask fiber);
       host_logged :=
         if env_log env then host_logged h ++ [renders] else host_logged h;
       host_inspectorSignal :=
         if bool_decide (env_inspectKind env = "focused")
         then Some (env_now env) else host_inspectorSignal h;
       host_userCalls :=
         if env_hasOnRender env
         then host_userCalls h ++ [(fiber_ref fiber, renders)]
         else host_userCalls h |}.

(** What happens to the host between two tasks: a fiber renders, the
    interval timer of [getCanvasEl] ticks, the host runs a frame the
    timer requested, or the observer of a flush is notified. *)
Inductive HostEvent :=
  | Rendered (env : RenderEnv) (fiber : FiberInfo) (renders : Renders)
  | IntervalTick
  | FrameCallback
  | Observed (i : nat) (entries : list IntersectionObserverEntry).

Definition host_set_timed (t : TimedPipeline) (h : Host) : Host :=
  {| host_timed := t; host_logged := host_logged h;
     host_inspectorSignal := host_inspectorSignal h;
     host_userCalls := host_userCalls h |}.

Definition host_step (h : Host) (ev : HostEvent) : Host :=
  match ev with
  | Rendered env fiber renders => onRender env fiber renders h
  | IntervalTick => host_set_timed (timed_step getFiberId (host_timed h) Tick) h
  | FrameCallback => host_set_timed (timed_step getFiberId (host_timed h) Frame) h
  | Observed i entries =>
      host_set_timed
        (timed_step getFiberId (host_timed h) (ObserverTask i entries)) h
  end.

Definition host_run (h : Host) (evs : list HostEvent) : Host :=
  fold_left host_step evs h.

(** The overlay is paused at every render of the run. *)
Definition always_paused (evs : list HostEvent) : Prop :=
  Forall (λ ev, match ev with
                | Rendered env _ _ => env_isPaused env = Some true
                | _ => True
                end) evs.

End Instrumentation.

(** ** Notions used in the statements *)

(** A call of [outlineFiber] that passes both guards: the fiber is a
    composite fiber and has a non-empty name. *)
Definition recordable (fiber : FiberInfo) : bool :=
  isCompositeFiber fiber && bool_decide (is_Some (truthy_name (fiber_name fiber))).

(** The calls of a sequence that refer to the fiber [f] and pass the
    guards. *)
Definition calls_for (f : Fiber) (fibers : list FiberInfo) : list FiberInfo :=
  filter (λ fiber, fiber_ref fiber = f ∧ recordable fiber = true) fibers.

(** The seven slots of one record, in the order of the protocol. *)
Definition outline_slots (o : OutlineData) : list float32 :=
  fround <$> [od_id o; od_count o; od_x o; od_y o;
              od_width o; od_height o; od_didCommit o].

(** What holds of a resolver between two tasks. *)
Record resolver_inv (r : Resolver) : Prop := {
  inv_seen_nodup : NoDup (seenElements r);
  inv_unique_nodup : NoDup (uniqueElements r);
  inv_seen_sub : ∀ e, e ∈ seenElements r → e ∈ uniqueElements r;
  inv_observing : observing r = true → done r = false ∧ phase r ≠ NotStarted;
  inv_started : phase r ≠ NotStarted → done r = false → observing r = true;
  inv_not_done :
    done r = false → uniqueElements r ≠ [] →
    (length (seenElements r) < length (uniqueElements r))%nat;
  inv_awaiting : phase r = Awaiting → resolveNext r = true ∧ done r = false;
  inv_yielded : phase r = Yielded → resolveNext r = false;
  inv_completed : phase r = Completed → done r = true;
  inv_not_started : phase r = NotStarted → seenElements r = [] ∧ done r = false;
}.

(** What holds of the pipeline between two tasks: every blueprint has its
    key in [blueprintMapKeys], and every flush is waiting for its observer
    or has finished. *)
Record pipeline_inv (p : Pipeline) : Prop := {
  inv_keys :
    ∀ f, is_Some (blueprintMap (aggregator p) !! f) →
         f ∈ blueprintMapKeys (aggregator p);
  inv_flushes :
    Forall
      (λ fc, resolver_inv (fc_resolver fc) ∧
             (phase (fc_resolver fc) = Awaiting ∨
              phase (fc_resolver fc) = Completed))
      (flushes p);
}.

(** The key set and the blueprint map hold the same fibers, each key
    once. *)
Definition keys_agree (st : Aggregator) : Prop :=
  NoDup (blueprintMapKeys st) ∧
  ∀ f, f ∈ blueprintMapKeys st ↔ is_Some (blueprintMap st !! f).


(** The elements notified to the observer of the [i]-th flush by the
    events of a run. *)
Definition notified_to (i : nat) (evs : list PipelineEvent) : list Element :=
  evs ≫= λ ev,
    match ev with
    | Intersection j entries => if decide (j = i) then target <$> entries else []
    | _ => []
    end.

(** An event of the direct renderer other than [resize] and its timer. *)
Definition no_resize (ev : CanvasEvent) : bool :=
  match ev with
  | CanvasCall (Resize _) | ResizeTimeout => false
  | _ => true
  end.

(** Every number of the record is an integer a single-precision slot
    holds exactly. *)
Definition fits_float32 (o : OutlineData) : Prop :=
  Forall (λ v, Z.abs v < 2 ^ 24)
    [od_id o; od_count o; od_x o; od_y o;
     od_width o; od_height o; od_didCommit o].

(** Every blueprint has been counted at least once and carries a commit
    flag of 0 or 1. *)
Definition blueprints_counted (st : Aggregator) : Prop :=
  ∀ f bp, blueprintMap st !! f = Some bp →
          1 ≤ bp_count bp ∧ (bp_didCommit bp = 0 ∨ bp_didCommit bp = 1).

(** A record of a render call has been counted at least once and carries
    a commit flag of 0 or 1. *)
Definition outline_counted (o : OutlineData) : Prop :=
  1 ≤ od_count o ∧ (od_didCommit o = 0 ∨ od_didCommit o = 1).

(** The frame requests of a direct renderer are in step with
    [animationFrameId]: none is pending and the id is unset, or exactly
    the one named by the id is pending. *)
Definition frames_in_step (r : CanvasOutlineRenderer) : Prop :=
  (c_animationFrameId r = None ∧ c_frameRequests r = []) ∨
  (∃ h, c_animationFrameId r = Some h ∧ c_frameRequests r = [h]).

(** * Properties *)

(** ** The rect merger *)

Section MergeRectsProofs.

Lemma fold_min_into (vs : list Z) (m : Z) :
  ∃ m', fold_left min_into vs (Some m) = Some m' ∧ is_minimum m' (m :: vs).
Proof.
  revert m. induction vs as [|v vs IH]; intros m; simpl.
  - exists m. split; [done|]. split; [set_solver|].
    intros v Hv. apply list_elem_of_singleton in Hv. lia.
  - destruct (IH (Z.min m v)) as (m' & Hm' & Hin & Hle).
    exists m'. split; [done|]. split.
    + apply elem_of_cons in Hin as [->|Hin]; [|set_solver].
      destruct (Z.min_spec m v) as [[_ ->]|[_ ->]]; set_solver.
    + intros w Hw.
      assert (m' ≤ Z.min m v) by (apply Hle; set_solver).
      apply elem_of_cons in Hw as [->|Hw]; [lia|].
      apply elem_of_cons in Hw as [->|Hw]; [lia|].
      apply Hle. set_solver.
Qed.

Lemma fold_max_into (vs : list Z) (m : Z) :
  ∃ m', fold_left max_into vs (Some m) = Some m' ∧ is_maximum m' (m :: vs).
Proof.
  revert m. induction vs as [|v vs IH]; intros m; simpl.
  - exists m. split; [done|]. split; [set_solver|].
    intros v Hv. apply list_elem_of_singleton in Hv. lia.
  - destruct (IH (Z.max m v)) as (m' & Hm' & Hin & Hle).
    exists m'. split; [done|]. split.
    + apply elem_of_cons in Hin as [->|Hin]; [|set_solver].
      destruct (Z.max_spec m v) as [[_ ->]|[_ ->]]; set_solver.
    + intros w Hw.
      assert (Z.max m v ≤ m') by (apply Hle; set_solver).
      apply elem_of_cons in Hw as [->|Hw]; [lia|].
      apply elem_of_cons in Hw as [->|Hw]; [lia|].
      apply Hle. set_solver.
Qed.

(** The loop keeps its four accumulators apart. *)
Lemma mergeRects_loop_split (rects : list DOMRect) (b : Bounds) :
  fold_left mergeRects_body rects b =
  {| minX := fold_left min_into (rect_x <$> rects) (minX b);
     minY := fold_left min_into (rect_y <$> rects) (minY b);
     maxX := fold_left max_into (rect_right_f64 <$> rects) (maxX b);
     maxY := fold_left max_into (rect_bottom_f64 <$> rects) (maxY b) |}.
Proof.
  revert b. induction rects as [|r rects IH]; intros b; simpl.
  - by destruct b.
  - by rewrite IH.
Qed.

Lemma mergeRects_loop_bounds (r : DOMRect) (rs : list DOMRect) :
  ∃ x0 y0 x1 y1,
    fold_left mergeRects_body (r :: rs) (mkBounds None None None None) =
      mkBounds (Some x0) (Some y0) (Some x1) (Some y1) ∧
    is_minimum x0 (rect_x <$> r :: rs) ∧
    is_minimum y0 (rect_y <$> r :: rs) ∧
    is_maximum x1 (rect_right_f64 <$> r :: rs) ∧
    is_maximum y1 (rect_bottom_f64 <$> r :: rs).
Proof.
  rewrite mergeRects_loop_split, !fmap_cons.
  cbn [fold_left min_into max_into minX minY maxX maxY].
  destruct (fold_min_into (rect_x <$> rs) (rect_x r)) as (x0 & -> & ?).
  destruct (fold_min_into (rect_y <$> rs) (rect_y r)) as (y0 & -> & ?).
  destruct (fold_max_into (rect_right_f64 <$> rs) (rect_right_f64 r))
    as (x1 & -> & ?).
  destruct (fold_max_into (rect_bottom_f64 <$> rs) (rect_bottom_f64 r))
    as (y1 & -> & ?).
  by exists x0, y0, x1, y1.
Qed.

Lemma covers_refl (r : DOMRect) : covers r r.
Proof. unfold covers. lia. Qed.

(** A result of at most 53 significant bits is not rounded. *)
Lemma f64_round_exact (v : Z) : Z.abs v < 2 ^ 53 → f64_round v = v.
Proof. intros H. unfold f64_round. by rewrite (proj2 (Z.ltb_lt _ _) H). Qed.

Lemma exact_rect_edges (q : DOMRect) :
  exact_rect q →
  rect_right_f64 q = rect_right q ∧ rect_bottom_f64 q = rect_bottom q ∧
  Z.abs (rect_right q) < 2 ^ 52 ∧ Z.abs (rect_bottom q) < 2 ^ 52.
Proof.
  unfold exact_rect, rect_right_f64, rect_bottom_f64, f64_add,
    rect_right, rect_bottom.
  intros (Hx & Hy & Hw & Hh).
  rewrite !f64_round_exact by lia. repeat split; lia.
Qed.

(** The amended form of C2.  For a non-empty list of rectangles
    [mergeRects] returns a rectangle.  For a single rectangle it is that
    rectangle.  For two or more it is [{x: minX, y: minY, width: maxX -
    minX, height: maxY - minY}], where [minX] and [minY] are the least [x]
    and [y] of the inputs, [maxX] and [maxY] the greatest [x + width] and
    [y + height], and each of these sums and differences is the double
    operation, rounded.  The left and the top edge of the result are never
    beyond those of an input.  When the numbers of the inputs are small
    enough for the sums and differences to be exact, the result covers
    every input, and every rectangle that covers every input covers the
    result.  (The function has no access to its inputs other than reading
    them.) *)
Theorem mergeRects_rounded_bounding_box (r : DOMRect) (rs : list DOMRect) :
  ∃ m,
    mergeRects (r :: rs) = Some m ∧
    (rs = [] → m = r) ∧
    (rs ≠ [] →
       ∃ x0 y0 x1 y1,
         is_minimum x0 (rect_x <$> r :: rs) ∧
         is_minimum y0 (rect_y <$> r :: rs) ∧
         is_maximum x1 (rect_right_f64 <$> r :: rs) ∧
         is_maximum y1 (rect_bottom_f64 <$> r :: rs) ∧
         m = new_DOMRect x0 y0 (f64_sub x1 x0) (f64_sub y1 y0)) ∧
    (∀ q, q ∈ r :: rs → rect_x m ≤ rect_x q ∧ rect_y m ≤ rect_y q) ∧
    (Forall exact_rect (r :: rs) →
       (∀ q, q ∈ r :: rs → covers m q) ∧
       (∀ b, (∀ q, q ∈ r :: rs → covers b q) → covers b m)).
Proof.
  destruct rs as [|r2 rs].
  - exists r. split; [done|]. split; [done|]. split; [done|]. split.
    + intros q Hq. apply list_elem_of_singleton in Hq as ->. lia.
    + intros _. split.
      * intros q Hq. apply list_elem_of_singleton in Hq as ->.
        apply covers_refl.
      * intros b Hb. apply Hb. set_solver.
  - destruct (mergeRects_loop_bounds r (r2 :: rs))
      as (x0 & y0 & x1 & y1 & Hloop & Hx0 & Hy0 & Hx1 & Hy1).
    exists (new_DOMRect x0 y0 (f64_sub x1 x0) (f64_sub y1 y0)).
    split.
    { unfold mergeRects. rewrite decide_False by (simpl; lia).
      by rewrite Hloop. }
    split; [done|]. split.
    { intros _. by exists x0, y0, x1, y1. }
    split.
    { intros q Hq. simpl.
      destruct Hx0 as [_ Hx0], Hy0 as [_ Hy0].
      split; [apply Hx0|apply Hy0]; by apply list_elem_of_fmap_2. }
    intros Hexact. rewrite Forall_forall in Hexact.
    assert (Z.abs x0 < 2 ^ 51 ∧ Z.abs y0 < 2 ^ 51) as [Hbx0 Hby0].
    { destruct Hx0 as [Hx0 _], Hy0 as [Hy0 _].
      apply list_elem_of_fmap in Hx0 as (qa & -> & Ha).
      apply list_elem_of_fmap in Hy0 as (qb & -> & Hqb).
      split; [apply (Hexact _ Ha)|apply (Hexact _ Hqb)]. }
    assert (∃ qc qd, qc ∈ r :: r2 :: rs ∧ qd ∈ r :: r2 :: rs ∧
                     x1 = rect_right qc ∧ y1 = rect_bottom qd ∧
                     Z.abs x1 < 2 ^ 52 ∧ Z.abs y1 < 2 ^ 52)
      as (qc & qd & Hc & Hd & Ex1 & Ey1 & Hbx1 & Hby1).
    { destruct Hx1 as [Hx1 _], Hy1 as [Hy1 _].
      apply list_elem_of_fmap in Hx1 as (qc & -> & Hc).
      apply list_elem_of_fmap in Hy1 as (qd & -> & Hd).
      destruct (exact_rect_edges qc (Hexact _ Hc)) as (-> & _ & ? & _).
      destruct (exact_rect_edges qd (Hexact _ Hd)) as (_ & -> & _ & ?).
      by exists qc, qd. }
    assert (f64_sub x1 x0 = x1 - x0 ∧ f64_sub y1 y0 = y1 - y0) as [-> ->].
    { unfold f64_sub. rewrite !f64_round_exact by lia. done. }
    split.
    + intros q Hq. unfold covers, rect_right, rect_bottom; simpl.
      destruct Hx0 as [_ Hx0], Hy0 as [_ Hy0], Hx1 as [_ Hx1], Hy1 as [_ Hy1].
      specialize (Hx0 (rect_x q) (list_elem_of_fmap_2 _ _ _ Hq)).
      specialize (Hy0 (rect_y q) (list_elem_of_fmap_2 _ _ _ Hq)).
      specialize (Hx1 (rect_right_f64 q) (list_elem_of_fmap_2 _ _ _ Hq)).
      specialize (Hy1 (rect_bottom_f64 q) (list_elem_of_fmap_2 _ _ _ Hq)).
      destruct (exact_rect_edges q (Hexact _ Hq)) as (Er & Eb & _ & _).
      rewrite Er in Hx1. rewrite Eb in Hy1.
      unfold rect_right, rect_bottom in *. lia.
    + intros b Hb. unfold covers, rect_right, rect_bottom; simpl.
      destruct Hx0 as [Hx0 _], Hy0 as [Hy0 _].
      apply list_elem_of_fmap in Hx0 as (qa & -> & Ha).
      apply list_elem_of_fmap in Hy0 as (qb & -> & Hqb).
      pose proof (Hb _ Ha) as Ca. pose proof (Hb _ Hqb) as Cb.
      pose proof (Hb _ Hc) as Cc. pose proof (Hb _ Hd) as Cd.
      unfold covers, rect_right, rect_bottom in *. lia.
Qed.

(** C2 as stated fails.  In units of [2^-49] the two rectangles are
    [(10.3, 0, 5, 5)] and [(50.7, 0, 10.4, 5)], each number the double
    nearest to the decimal.  [maxX] is the double [61.1], the width is
    [61.1 - 10.3] rounded, and the right edge of the result lies to the
    left of the right edge of the second rectangle, whether the two edges
    are taken exactly or as the doubles [x + width]: the result does not
    cover its input. *)
Lemma mergeRects_rounding_uncovers_input :
  ∃ m,
    mergeRects
      [new_DOMRect 5798384520239514 0 2814749767106560 2814749767106560;
       new_DOMRect 28541562638460520 0 5854679515581645 2814749767106560]
    = Some m ∧
    rect_right m
    < rect_right
        (new_DOMRect 28541562638460520 0 5854679515581645 2814749767106560) ∧
    rect_right_f64 m
    < rect_right_f64
        (new_DOMRect 28541562638460520 0 5854679515581645 2814749767106560) ∧
    ¬ covers m
        (new_DOMRect 28541562638460520 0 5854679515581645 2814749767106560).
Proof.
  eexists. split; [vm_compute; reflexivity|].
  split; [by vm_compute|]. split; [by vm_compute|].
  unfold covers. vm_compute. intros (_ & _ & H & _). by apply H.
Qed.

(** Rounding at the first integer a double cannot hold: the widths add up
    to [2^53 + 1] and the width returned is [2^53]. *)
Example mergeRects_rounds_width :
  mergeRects [new_DOMRect 0 0 1 1; new_DOMRect 1 0 9007199254740992 1]
  = Some (new_DOMRect 0 0 9007199254740992 1).
Proof. vm_compute. reflexivity. Qed.

(** Two rectangles [(0,0,10,10)] and [(20,20,10,10)] merge into
    [(0,0,30,30)]. *)
Example mergeRects_two :
  mergeRects [new_DOMRect 0 0 10 10; new_DOMRect 20 20 10 10]
  = Some (new_DOMRect 0 0 30 30).
Proof. reflexivity. Qed.

End MergeRectsProofs.

(** ** Recording renders *)

Section OutlineFiberProofs.

Lemma outlineFiber_other (fiber : FiberInfo) (st : Aggregator) (f : Fiber) :
  fiber_ref fiber ≠ f →
  blueprintMap (outlineFiber fiber st) !! f = blueprintMap st !! f.
Proof.
  intros Hne. unfold outlineFiber.
  destruct (negb (isCompositeFiber fiber)); [done|].
  destruct (truthy_name (fiber_name fiber)); [|done].
  destruct (blueprintMap st !! fiber_ref fiber); simpl;
    by rewrite lookup_insert_ne.
Qed.

Lemma outlineFiber_skipped (fiber : FiberInfo) (st : Aggregator) :
  recordable fiber = false → outlineFiber fiber st = st.
Proof.
  unfold recordable, outlineFiber. intros H.
  destruct (isCompositeFiber fiber); [|done]. simpl in *.
  destruct (truthy_name (fiber_name fiber)) eqn:E; [|done].
  rewrite bool_decide_eq_false in H. destruct H. by eexists.
Qed.

Lemma outlineFiber_first (fiber : FiberInfo) (st : Aggregator) :
  recordable fiber = true →
  blueprintMap st !! fiber_ref fiber = None →
  ∃ bp, blueprintMap (outlineFiber fiber st) !! fiber_ref fiber = Some bp ∧
        bp_count bp = 1 ∧
        bp_didCommit bp = (if didFiberCommit fiber then 1 else 0).
Proof.
  unfold recordable, outlineFiber. intros H Hnone.
  apply andb_true_iff in H as [-> H]. simpl.
  apply bool_decide_eq_true in H as [name ->].
  rewrite Hnone. simpl. rewrite lookup_insert_eq. by eexists.
Qed.

Lemma outlineFiber_repeat (fiber : FiberInfo) (st : Aggregator)
    (bp : BlueprintOutline) :
  recordable fiber = true →
  blueprintMap st !! fiber_ref fiber = Some bp →
  ∃ bp', blueprintMap (outlineFiber fiber st) !! fiber_ref fiber = Some bp' ∧
         bp_count bp' = bp_count bp + 1 ∧
         bp_didCommit bp' = bp_didCommit bp.
Proof.
  unfold recordable, outlineFiber. intros H Hsome.
  apply andb_true_iff in H as [-> H]. simpl.
  apply bool_decide_eq_true in H as [name ->].
  rewrite Hsome. simpl. rewrite lookup_insert_eq. by eexists.
Qed.

(** Once a blueprint exists, each further call adds one to its count and
    leaves [didCommit] as it is. *)
Lemma outlineFibers_existing (fibers : list FiberInfo) (st : Aggregator)
    (f : Fiber) (bp : BlueprintOutline) :
  blueprintMap st !! f = Some bp →
  ∃ bp', blueprintMap (outlineFibers fibers st) !! f = Some bp' ∧
         bp_count bp' = bp_count bp + Z.of_nat (length (calls_for f fibers)) ∧
         bp_didCommit bp' = bp_didCommit bp.
Proof.
  revert st bp. induction fibers as [|fiber fibers IH]; intros st bp Hbp.
  - exists bp. simpl. split; [done|]. split; [lia|done].
  - unfold outlineFibers, calls_for in *. simpl. rewrite filter_cons.
    destruct (decide (fiber_ref fiber = f ∧ recordable fiber = true))
      as [[<- Hrec]|Hno].
    + destruct (outlineFiber_repeat fiber st bp Hrec Hbp) as (bp1 & H1 & Hc & Hd).
      destruct (IH _ _ H1) as (bp' & H' & Hc' & Hd').
      exists bp'. split; [done|]. simpl length. split; [lia|congruence].
    + apply IH.
      destruct (decide (fiber_ref fiber = f)) as [Heq|Hne].
      * rewrite outlineFiber_skipped; [done|].
        destruct (recordable fiber); [|done]. by destruct Hno.
      * by rewrite outlineFiber_other.
Qed.

(** The amended form of C1.  Within one cycle (the fiber has no
    blueprint when the calls begin), after any sequence of
    [outlineFiber] calls of which [N >= 1] refer to the fiber and pass
    the guards of [outlineFiber] (composite fiber, non-empty name), the
    blueprint of the fiber has [count = N] and the [didCommit] of the
    FIRST of these calls: a repeat call adds one to [count] and leaves
    [didCommit] as it is. *)
Theorem outlineFiber_count_and_first_didCommit
    (fibers : list FiberInfo) (st : Aggregator) (f : Fiber)
    (first : FiberInfo) :
  blueprintMap st !! f = None →
  head (calls_for f fibers) = Some first →
  ∃ bp, blueprintMap (outlineFibers fibers st) !! f = Some bp ∧
        bp_count bp = Z.of_nat (length (calls_for f fibers)) ∧
        bp_didCommit bp = (if didFiberCommit first then 1 else 0).
Proof.
  revert st. induction fibers as [|fiber fibers IH]; intros st Hnone Hfirst.
  - done.
  - unfold calls_for in *. rewrite filter_cons in *.
    destruct (decide (fiber_ref fiber = f ∧ recordable fiber = true))
      as [[<- Hrec]|Hno].
    + simpl in Hfirst. injection Hfirst as <-.
      destruct (outlineFiber_first fiber st Hrec Hnone) as (bp1 & H1 & Hc & Hd).
      destruct (outlineFibers_existing fibers _ _ _ H1) as (bp' & H' & Hc' & Hd').
      exists bp'. split; [done|]. unfold calls_for in *. simpl length.
      split; [lia|congruence].
    + apply IH; [|done].
      destruct (decide (fiber_ref fiber = f)) as [Heq|Hne].
      * rewrite outlineFiber_skipped; [done|].
        destruct (recordable fiber); [|done]. by destruct Hno.
      * by rewrite outlineFiber_other.
Qed.

(** Three renders of one component, the middle one without a commit. *)
Lemma outlineFiber_count_and_first_didCommit_witness :
  let call (didCommit : bool) :=
    {| fiber_ref := 1%positive; isCompositeFiber := true;
       fiber_type_string := None; getDisplayName := Some "App";
       getNearestHostFibers := [ElementNode 7%positive];
       didFiberCommit := didCommit |} in
  let fibers := [call true; call false; call true] in
  blueprintMap empty_aggregator !! 1%positive = None ∧
  head (calls_for 1%positive fibers) = Some (call true) ∧
  ∃ bp, blueprintMap (outlineFibers fibers empty_aggregator) !! 1%positive
          = Some bp ∧
        bp_count bp = 3 ∧ bp_didCommit bp = 1.
Proof.
  intros call fibers.
  split; [reflexivity|]. split; [reflexivity|].
  apply (outlineFiber_count_and_first_didCommit fibers empty_aggregator
           1%positive (call true)); reflexivity.
Defined.

(** C1 as stated fails: a component renders twice, first with a commit
    and then without; the blueprint has [count = 2] but keeps
    [didCommit = 1], not the [0] of the last call. *)
Lemma outlineFiber_didCommit_not_overwritten :
  ∃ bp,
    blueprintMap
      (outlineFibers
         [ {| fiber_ref := 1%positive; isCompositeFiber := true;
              fiber_type_string := None; getDisplayName := Some "App";
              getNearestHostFibers := [ElementNode 7%positive];
              didFiberCommit := true |};
           {| fiber_ref := 1%positive; isCompositeFiber := true;
              fiber_type_string := None; getDisplayName := Some "App";
              getNearestHostFibers := [ElementNode 7%positive];
              didFiberCommit := false |} ]
         empty_aggregator) !! 1%positive = Some bp ∧
    bp_count bp = 2 ∧
    bp_didCommit bp = 1 ∧
    bp_didCommit bp ≠ 0.
Proof. eexists. split; [reflexivity|]. by repeat split. Qed.

End OutlineFiberProofs.

(** ** The merge step of the direct renderer *)

Section UpdateOutlinesProofs.

Lemma updateOutlines_snoc (m : gmap string ActiveOutline)
    (before : list OutlineData) (o : OutlineData) :
  updateOutlines m (before ++ [o]) = updateOutline (updateOutlines m before) o.
Proof. unfold updateOutlines. by rewrite fold_left_app. Qed.

(** Two ids have the same key exactly when they are equal. *)
Lemma String_of_inj (a b : Z) : String_of a = String_of b → a = b.
Proof. unfold String_of. apply (inj pretty). Qed.

(** C5. Let [m] be the active outlines at the moment [updateOutlines]
    comes to the record [o] (after the records [before] of the same
    call), and [key] the string form of [o.id].  If [m] has no entry
    under [key], an entry is created with the fields of [o], [frame =
    0] and the current position equal to the target position.  If it
    has one, that entry keeps its id, name and current [x], [y],
    [width], [height]; its count goes up by one, its frame is reset to
    [0], and its target position and [didCommit] become those of [o].
    No other entry changes. *)
Theorem updateOutlines_merges_record (activeOutlines : gmap string ActiveOutline)
    (before : list OutlineData) (o : OutlineData) :
  let m := updateOutlines activeOutlines before in
  let m' := updateOutlines activeOutlines (before ++ [o]) in
  let key := String_of (od_id o) in
  match m !! key with
  | None =>
      m' !! key =
        Some {| ao_id := od_id o; ao_name := od_name o; ao_count := od_count o;
                ao_x := od_x o; ao_y := od_y o;
                ao_width := od_width o; ao_height := od_height o;
                ao_frame := 0;
                ao_targetX := od_x o; ao_targetY := od_y o;
                ao_targetWidth := od_width o; ao_targetHeight := od_height o;
                ao_didCommit := od_didCommit o |}
  | Some existing =>
      m' !! key =
        Some {| ao_id := ao_id existing; ao_name := ao_name existing;
                ao_count := ao_count existing + 1;
                ao_x := ao_x existing; ao_y := ao_y existing;
                ao_width := ao_width existing; ao_height := ao_height existing;
                ao_frame := 0;
                ao_targetX := od_x o; ao_targetY := od_y o;
                ao_targetWidth := od_width o; ao_targetHeight := od_height o;
                ao_didCommit := od_didCommit o |}
  end ∧
  ∀ k, k ≠ key → m' !! k = m !! k.
Proof.
  intros m m' key. subst m'. rewrite updateOutlines_snoc. fold m.
  unfold updateOutline. simpl. fold key.
  destruct (m !! key) as [existing|] eqn:E.
  - split; [by rewrite lookup_insert_eq|].
    intros k Hk. by rewrite lookup_insert_ne.
  - split; [by rewrite lookup_insert_eq|].
    intros k Hk. by rewrite lookup_insert_ne.
Qed.

(** The same outline arrives twice, the second time moved. *)
Example updateOutlines_twice :
  let o x := {| od_id := 5; od_name := "App"; od_count := 2;
                od_x := x; od_y := 0; od_width := 10; od_height := 10;
                od_didCommit := 1 |} in
  updateOutlines ∅ [o 0; o 40] !! "5" =
    Some {| ao_id := 5; ao_name := "App"; ao_count := 3;
            ao_x := 0; ao_y := 0; ao_width := 10; ao_height := 10;
            ao_frame := 0;
            ao_targetX := 40; ao_targetY := 0;
            ao_targetWidth := 10; ao_targetHeight := 10;
            ao_didCommit := 1 |}.
Proof. vm_compute. reflexivity. Qed.

End UpdateOutlinesProofs.

(** ** The wire format of the offloaded renderer *)

Section WireFormatProofs.

Lemma insert_after {A} (pre suf : list A) (a k : nat) (v : A) :
  length pre = a → <[(a + k)%nat := v]> (pre ++ suf) = pre ++ <[k := v]> suf.
Proof. intros <-. apply insert_app_r. Qed.

Lemma insert_after_0 {A} (pre suf : list A) (a : nat) (v : A) :
  length pre = a → <[a := v]> (pre ++ suf) = pre ++ <[0%nat := v]> suf.
Proof. intros <-. rewrite <- (Nat.add_0_r (length pre)) at 1. apply insert_app_r. Qed.

(** One call of the [forEach] callback fills the next seven slots and
    the next name. *)
Lemma pack_outline_next (pre : list float32) (names : list (option string))
    (n m bytes : nat) (o : OutlineData) :
  length pre = (length names * OUTLINE_ARRAY_SIZE)%nat →
  pack_outline
    ({| byteLength := bytes;
        f32_slots := pre ++ replicate (OUTLINE_ARRAY_SIZE + m) (F32 0) |},
     names ++ replicate (S n) None)
    (length names, o) =
  ({| byteLength := bytes;
      f32_slots := (pre ++ outline_slots o) ++ replicate m (F32 0) |},
   (names ++ [Some (od_name o)]) ++ replicate n None).
Proof.
  intros Hpre. unfold pack_outline, f32_store.
  cbn [byteLength f32_slots].
  rewrite (insert_after_0 pre _ _ _ Hpre).
  rewrite !(insert_after pre _ _ _ _ Hpre).
  rewrite (insert_after_0 names) by done.
  rewrite <- !app_assoc. reflexivity.
Qed.

Lemma outline_slots_length (o : OutlineData) :
  length (outline_slots o) = OUTLINE_ARRAY_SIZE.
Proof. reflexivity. Qed.

Lemma bind_slots_length (l : list OutlineData) :
  length (l ≫= outline_slots) = (length l * OUTLINE_ARRAY_SIZE)%nat.
Proof.
  induction l as [|o l IH]; [done|].
  rewrite bind_cons, length_app, IH, outline_slots_length. simpl. lia.
Qed.

(** The loop after a prefix [l] of the records: their slots and names
    are in place, the rest of the buffer is still zero. *)
Lemma pack_prefix (l rest : list OutlineData) (bytes : nat) :
  fold_left pack_outline (imap (λ i outline, (i, outline)) l)
    ({| byteLength := bytes;
        f32_slots :=
          replicate (length (l ++ rest) * OUTLINE_ARRAY_SIZE) (F32 0) |},
     replicate (length (l ++ rest)) None) =
  ({| byteLength := bytes;
      f32_slots :=
        (l ≫= outline_slots)
        ++ replicate (length rest * OUTLINE_ARRAY_SIZE) (F32 0) |},
   ((λ o, Some (od_name o)) <$> l) ++ replicate (length rest) None).
Proof.
  revert rest. induction l as [|o l IH] using rev_ind; intros rest.
  - done.
  - rewrite imap_app, fold_left_app. rewrite <- app_assoc.
    change ([o] ++ rest) with (o :: rest).
    rewrite IH. cbn [imap fold_left]. rewrite Nat.add_0_r.
    replace (length (o :: rest) * OUTLINE_ARRAY_SIZE)%nat
      with (OUTLINE_ARRAY_SIZE + length rest * OUTLINE_ARRAY_SIZE)%nat
      by (simpl; lia).
    change (length (o :: rest)) with (S (length rest)).
    rewrite <- (length_fmap (λ o, Some (od_name o)) l) at 1.
    rewrite pack_outline_next.
    + rewrite bind_app, fmap_app, bind_cons. cbn [mbind list_bind]. by rewrite app_nil_r.
    + by rewrite bind_slots_length, length_fmap.
Qed.

Lemma pack_outlines_eq (outlines : list OutlineData) :
  pack_outlines outlines =
  ({| byteLength := length outlines * 7 * 4;
      f32_slots := outlines ≫= outline_slots |},
   (λ o, Some (od_name o)) <$> outlines).
Proof.
  unfold pack_outlines, new_ArrayBuffer.
  replace (length outlines * OUTLINE_ARRAY_SIZE * 4 / 4)%nat
    with (length (outlines ++ []) * OUTLINE_ARRAY_SIZE)%nat
    by (rewrite app_nil_r, Nat.div_mul; lia).
  replace (replicate (length outlines) None)
    with (replicate (length (outlines ++ [])) (@None string))
    by (by rewrite app_nil_r).
  rewrite pack_prefix. simpl. by rewrite !app_nil_r.
Qed.

Lemma bind_slots_lookup (l : list OutlineData) (i k : nat) (o : OutlineData) :
  l !! i = Some o → (k < 7)%nat →
  (l ≫= outline_slots) !! (7 * i + k)%nat = outline_slots o !! k.
Proof.
  revert i. induction l as [|a l IH]; intros i Hi Hk; [done|].
  rewrite bind_cons. destruct i as [|i]; simpl in Hi.
  - injection Hi as ->. rewrite Nat.mul_0_r. simpl Nat.add.
    by apply lookup_app_l.
  - rewrite lookup_app_r by (rewrite outline_slots_length; unfold OUTLINE_ARRAY_SIZE; lia).
    rewrite outline_slots_length. unfold OUTLINE_ARRAY_SIZE.
    replace (7 * S i + k - 7)%nat with (7 * i + k)%nat by lia.
    by apply IH.
Qed.

(** C4. [renderOutlines] of the offloaded renderer, called with [N]
    records on a renderer whose worker runs, delivers one
    [draw-outlines] message.  Its buffer is [N * 7 * 4] bytes long and
    holds [7 * N] single-precision slots; the slots [7 i .. 7 i + 6] are
    the single-precision images of [id, count, x, y, width, height,
    didCommit] of record [i], in this order.  The names are not in the
    buffer: they are a list of length [N] whose entry [i] is the name of
    record [i].  In particular the record [{id: 1, count: 3, x: 1, y: 2,
    width: 3, height: 4, didCommit: 1}] gives a buffer of 28 bytes with
    the slots [1, 3, 1, 2, 3, 4, 1] and one name. *)
Theorem renderOutlines_wire_format (outlines : list OutlineData)
    (size : Size) (dpr : Z) :
  let N := length outlines in
  ∃ data names,
    w_inbox (worker_renderOutlines outlines (new_WorkerOutlineRenderer size dpr))
      = w_inbox (new_WorkerOutlineRenderer size dpr)
        ++ [MsgDrawOutlines data names] ∧
    byteLength data = (N * 7 * 4)%nat ∧
    length (f32_slots data) = (7 * N)%nat ∧
    length names = N ∧
    (∀ i o, outlines !! i = Some o →
       f32_slots data !! (7 * i)%nat = Some (fround (od_id o)) ∧
       f32_slots data !! (7 * i + 1)%nat = Some (fround (od_count o)) ∧
       f32_slots data !! (7 * i + 2)%nat = Some (fround (od_x o)) ∧
       f32_slots data !! (7 * i + 3)%nat = Some (fround (od_y o)) ∧
       f32_slots data !! (7 * i + 4)%nat = Some (fround (od_width o)) ∧
       f32_slots data !! (7 * i + 5)%nat = Some (fround (od_height o)) ∧
       f32_slots data !! (7 * i + 6)%nat = Some (fround (od_didCommit o)) ∧
       names !! i = Some (Some (od_name o))) ∧
    (∀ name,
       pack_outlines
         [{| od_id := 1; od_name := name; od_count := 3;
             od_x := 1; od_y := 2; od_width := 3; od_height := 4;
             od_didCommit := 1 |}] =
       ({| byteLength := 28;
           f32_slots := [F32 1; F32 3; F32 1; F32 2; F32 3; F32 4; F32 1] |},
        [Some name])).
Proof.
  intros N. unfold worker_renderOutlines. rewrite pack_outlines_eq.
  eexists _, _. split; [reflexivity|]. simpl byteLength. simpl f32_slots.
  split; [done|]. split; [rewrite bind_slots_length; unfold OUTLINE_ARRAY_SIZE; lia|].
  split; [by rewrite length_fmap|]. split.
  - intros i o Hi.
    pose proof (λ k, bind_slots_lookup outlines i k o Hi) as Hk.
    rewrite <- (Nat.add_0_r (7 * i)) at 1.
    rewrite !Hk by lia. rewrite list_lookup_fmap, Hi. by repeat split.
  - intros name. reflexivity.
Qed.

End WireFormatProofs.

(** ** Disposal *)

Section DisposeProofs.

Variable drawCanvas :
  gmap string ActiveOutline → gmap string ActiveOutline * bool.
Variable updateScroll :
  gmap string ActiveOutline → Z → Z → gmap string ActiveOutline.

Lemma worker_postMessage_terminated (msg : WorkerMessage)
    (r : WorkerOutlineRenderer) :
  w_terminated r = true → worker_postMessage msg r = r.
Proof. unfold worker_postMessage. by intros ->. Qed.

(** A step of a renderer whose worker is terminated delivers nothing
    and leaves the worker terminated. *)
Lemma worker_step_terminated (r : WorkerOutlineRenderer) (ev : WorkerEvent) :
  w_terminated r = true →
  w_terminated (worker_step r ev) = true ∧
  w_inbox (worker_step r ev) = w_inbox r.
Proof.
  intros Ht. destruct ev as [[outlines|size|dx dy|]|]; simpl.
  - unfold worker_renderOutlines. destruct (pack_outlines outlines).
    by rewrite worker_postMessage_terminated.
  - done.
  - unfold worker_scroll. by rewrite worker_postMessage_terminated.
  - done.
  - unfold worker_resize_timeout. destruct (w_isResizeScheduled r); [|done].
    by rewrite worker_postMessage_terminated.
Qed.

Lemma worker_run_terminated (evs : list WorkerEvent) (r : WorkerOutlineRenderer) :
  w_terminated r = true →
  w_terminated (worker_run r evs) = true ∧
  w_inbox (worker_run r evs) = w_inbox r.
Proof.
  revert r. induction evs as [|ev evs IH]; intros r Ht; [done|].
  destruct (worker_step_terminated r ev Ht) as [Ht' Hin].
  destruct (IH _ Ht') as [Ht'' Hin'].
  unfold worker_run in *. simpl. split; congruence.
Qed.

(** A fresh direct renderer that is disposed of and then given outlines
    draws them at the next animation frame. *)
Lemma canvas_draws_after_dispose (outlines : list OutlineData)
    (size : Size) (dpr : Z) :
  c_drawn
    (canvas_run drawCanvas updateScroll
       (canvas_dispose (new_CanvasOutlineRenderer true size dpr))
       [CanvasCall (RenderOutlines outlines); AnimationFrame])
  = [updateOutlines ∅ outlines].
Proof.
  unfold canvas_run, canvas_dispose. simpl.
  unfold canvas_draw. simpl.
  by destruct (drawCanvas (updateOutlines ∅ outlines)) as [m []].
Qed.

(** The amended form of C9.  On the offloaded renderer, [dispose]
    terminates the worker: whatever calls and timers follow, the worker
    stays terminated and no further message is delivered to it.  On the
    direct renderer, [dispose] changes nothing: outlines rendered after
    it are still drawn at the next animation frame.  On both, a second
    [dispose] changes nothing. *)
Theorem dispose_effects :
  (∀ (r : WorkerOutlineRenderer) (evs : list WorkerEvent),
     w_terminated (worker_run (worker_dispose r) evs) = true ∧
     w_inbox (worker_run (worker_dispose r) evs) = w_inbox r) ∧
  (∀ r : WorkerOutlineRenderer,
     worker_dispose (worker_dispose r) = worker_dispose r) ∧
  (∀ r : CanvasOutlineRenderer, canvas_dispose r = r) ∧
  (∀ (outlines : list OutlineData) (size : Size) (dpr : Z),
     c_drawn
       (canvas_run drawCanvas updateScroll
          (canvas_dispose (new_CanvasOutlineRenderer true size dpr))
          [CanvasCall (RenderOutlines outlines); AnimationFrame])
     = [updateOutlines ∅ outlines]).
Proof.
  split; [|split; [|split]].
  - intros r evs. by apply (worker_run_terminated evs (worker_dispose r)).
  - done.
  - done.
  - apply canvas_draws_after_dispose.
Qed.

End DisposeProofs.

(** C9 as stated fails for the direct renderer: a renderer is created,
    disposed of, given one outline and an animation frame passes; whatever
    [drawCanvas] and [updateScroll] do, [drawCanvas] has been called. *)
Lemma canvas_dispose_does_not_stop_drawing :
  ¬ ∃ drawCanvas updateScroll,
      c_drawn
        (canvas_run drawCanvas updateScroll
           (canvas_dispose
              (new_CanvasOutlineRenderer true
                 {| sz_width := 800; sz_height := 600 |} 1))
           [CanvasCall
              (RenderOutlines
                 [{| od_id := 1; od_name := "App"; od_count := 1;
                     od_x := 10; od_y := 10; od_width := 50; od_height := 50;
                     od_didCommit := 1 |}]);
            AnimationFrame])
      = [].
Proof.
  intros (drawCanvas & updateScroll & H).
  by rewrite canvas_draws_after_dispose in H.
Qed.

(** ** Scroll forwarding *)

Section ScrollProofs.

(** Scroll events that arrive while the timer is pending move
    [prevScroll] and nothing else. *)
Lemma glue_scrolls_while_scheduled (evs : list (Z * Z)) (g : ScrollGlue) :
  isScrollScheduled g = true →
  let g' := glue_run g ((λ '(x, y), WindowScroll x y) <$> evs) in
  isScrollScheduled g' = true ∧
  scroll_timer g' = scroll_timer g ∧
  glue_calls g' = glue_calls g ∧
  (prevScrollX g', prevScrollY g')
  = default (prevScrollX g, prevScrollY g) (last evs).
Proof.
  revert g. induction evs as [|[x y] evs IH]; intros g Hs; [done|].
  specialize (IH {| prevScrollX := x; prevScrollY := y;
                    isScrollScheduled := true;
                    scroll_timer := scroll_timer g;
                    glue_calls := glue_calls g |} eq_refl).
  cbv zeta in *. unfold glue_run in *.
  rewrite fmap_cons. cbn [fold_left glue_step]. rewrite Hs.
  destruct IH as (H1 & H2 & H3 & H4).
  rewrite H1, H2, H3, H4. cbn [prevScrollX prevScrollY scroll_timer glue_calls].
  repeat split. rewrite last_cons. by destruct (last evs).
Qed.

(** One window: the timer is not pending, scroll events take the window
    to [(x1, y1)] and then through [more], and the timer fires.  The
    renderer gets one call, with the deltas of the first event. *)
Lemma glue_window (g : ScrollGlue) (x1 y1 : Z) (more : list (Z * Z)) :
  isScrollScheduled g = false →
  glue_calls
    (glue_run g
       (WindowScroll x1 y1 :: ((λ '(x, y), WindowScroll x y) <$> more)
        ++ [ScrollTimeout]))
  = glue_calls g ++ [ScrollBy (x1 - prevScrollX g) (y1 - prevScrollY g)].
Proof.
  intros Hs. unfold glue_run. simpl. rewrite Hs, fold_left_app.
  pose proof (glue_scrolls_while_scheduled more
    {| prevScrollX := x1; prevScrollY := y1; isScrollScheduled := true;
       scroll_timer := Some (x1 - prevScrollX g, y1 - prevScrollY g);
       glue_calls := glue_calls g |} eq_refl) as (_ & H2 & H3 & _).
  unfold glue_run in *. simpl in *. rewrite H2. simpl. by rewrite H3.
Qed.

(** C10 on a concrete window.  The window is at [(0, 0)]; two scroll
    events take it to [(0, 10)] and to [(0, 30)] before the timer of the
    first fires.  The renderer is told to scroll by [(0, 10)], not by
    the net [(0, 30)]; and since [prevScroll] is now [(0, 30)], the
    missing [(0, 20)] is in no later call either: the next event, to
    [(0, 35)], forwards [(0, 5)]. *)
Theorem scroll_forwards_first_delta_only :
  glue_calls
    (glue_run (new_ScrollGlue 0 0)
       [WindowScroll 0 10; WindowScroll 0 30; ScrollTimeout])
  = [ScrollBy 0 10] ∧
  glue_calls
    (glue_run (new_ScrollGlue 0 0)
       [WindowScroll 0 10; WindowScroll 0 30; ScrollTimeout;
        WindowScroll 0 35; ScrollTimeout])
  = [ScrollBy 0 10; ScrollBy 0 5].
Proof. split; reflexivity. Qed.

End ScrollProofs.

(** ** The batched visibility resolver *)

Section ResolverProofs.

Lemma set_add_elem `{EqDecision A} (a b : A) (s : list A) :
  b ∈ set_add a s ↔ b = a ∨ b ∈ s.
Proof.
  unfold set_add. case_bool_decide; [set_solver|].
  rewrite elem_of_app, list_elem_of_singleton. tauto.
Qed.

Lemma set_add_nodup `{EqDecision A} (a : A) (s : list A) :
  NoDup s → NoDup (set_add a s).
Proof.
  intros Hs. unfold set_add. case_bool_decide; [done|].
  apply NoDup_app. split; [done|]. split; [|apply NoDup_singleton].
  intros x Hx Hx'. apply list_elem_of_singleton in Hx'. by subst.
Qed.

Lemma new_Set_spec `{EqDecision A} (l : list A) :
  NoDup (new_Set l) ∧ ∀ a, a ∈ new_Set l ↔ a ∈ l.
Proof.
  unfold new_Set.
  assert (∀ s, NoDup s →
            NoDup (fold_left (λ s a, set_add a s) l s) ∧
            ∀ a, a ∈ fold_left (λ s a, set_add a s) l s ↔ a ∈ s ∨ a ∈ l) as H.
  { induction l as [|x l IH]; intros s Hs; simpl.
    - split; [done|]. set_solver.
    - destruct (IH (set_add x s) (set_add_nodup x s Hs)) as [Hn He].
      split; [done|]. intros a. rewrite He, set_add_elem, elem_of_cons. tauto. }
  destruct (H [] (NoDup_nil_2)) as [Hn He]. split; [done|].
  intros a. rewrite He. set_solver.
Qed.

(** The loop of the callback appends to the seen-set the targets of the
    entries it keeps, which are those not seen before, each once. *)
Lemma partition_new_spec (entries : list IntersectionObserverEntry)
    (seen : list Element) :
  NoDup seen →
  ∃ new,
    partition_new entries seen = (seen ++ (target <$> new), new) ∧
    NoDup (seen ++ (target <$> new)) ∧
    (∀ entry, entry ∈ new → entry ∈ entries) ∧
    (∀ entry, entry ∈ entries → target entry ∈ seen ++ (target <$> new)).
Proof.
  unfold partition_new.
  assert (∀ acc,
    NoDup (seen ++ (target <$> acc)) →
    ∃ new,
      fold_left
        (λ '(seen, newEntries) entry,
           let element := target entry in
           if bool_decide (element ∈ seen) then (seen, newEntries)
           else (seen ++ [element], newEntries ++ [entry]))
        entries (seen ++ (target <$> acc), acc)
      = (seen ++ (target <$> (acc ++ new)), acc ++ new) ∧
      NoDup (seen ++ (target <$> (acc ++ new))) ∧
      (∀ entry, entry ∈ new → entry ∈ entries) ∧
      (∀ entry, entry ∈ entries →
         target entry ∈ seen ++ (target <$> (acc ++ new)))) as H.
  { induction entries as [|entry entries IH]; intros acc Hnd.
    - exists []. rewrite app_nil_r. split; [done|]. split; [done|].
      split; intros e He; by apply elem_of_nil in He.
    - cbn [fold_left]. cbn beta zeta iota.
      case_bool_decide as Hin.
      + destruct (IH acc Hnd) as (new & Hf & Hn & Hsub & Hcov).
        exists new. split; [done|]. split; [done|]. split.
        * intros e He. right. by apply Hsub.
        * intros e He. apply elem_of_cons in He as [->|He]; [|by apply Hcov].
          rewrite fmap_app, app_assoc. apply elem_of_app. by left.
      + assert (NoDup (seen ++ (target <$> (acc ++ [entry])))) as Hnd'.
        { rewrite fmap_app, app_assoc. apply NoDup_app. split; [done|].
          split; [|apply NoDup_singleton].
          intros x Hx Hx'. apply list_elem_of_singleton in Hx'. by subst. }
        destruct (IH (acc ++ [entry])) as (new & Hf & Hn & Hsub & Hcov);
          [done|].
        exists (entry :: new).
        replace (acc ++ entry :: new) with ((acc ++ [entry]) ++ new)
          by (by rewrite <- app_assoc).
        split.
        { rewrite <- Hf. f_equal. by rewrite fmap_app, app_assoc. }
        split; [done|]. split.
        * intros e He. apply elem_of_cons in He as [->|He]; [by left|].
          right. by apply Hsub.
        * intros e He. apply elem_of_cons in He as [->|He]; [|by apply Hcov].
          rewrite !fmap_app, !app_assoc. apply elem_of_app. left.
          apply elem_of_app. right. simpl. by left. }
  intros Hseen. destruct (H []) as (new & Hf & Hn & Hsub & Hcov).
  { simpl. by rewrite app_nil_r. }
  simpl in *. rewrite app_nil_r in Hf. by exists new.
Qed.

Lemma nodup_subset_length (l k : list Element) :
  NoDup l → (∀ e, e ∈ l → e ∈ k) → (length l ≤ length k)%nat.
Proof. intros Hl Hsub. apply submseteq_length. by apply NoDup_submseteq. Qed.

Lemma getBatchedRectMap_inv (elements : list Element) :
  resolver_inv (getBatchedRectMap elements).
Proof.
  destruct (new_Set_spec elements) as [Hn _].
  split; simpl; try done.
  - apply NoDup_nil_2.
  - intros e He. by apply elem_of_nil in He.
  - intros _ HU. destruct (new_Set elements); [done|]. simpl. lia.
Qed.

Local Ltac inv_goal :=
  simpl in *; try done; try (intros; auto; fail);
  try (intuition (congruence || lia); fail).

(** The consumer asks for the next batch. *)
Lemma resolver_next_spec (r : Resolver) :
  resolver_inv r → event_ok r Next = true →
  let r' := (resolver_step r Next).1 in
  resolver_inv r' ∧
  (resolver_step r Next).2 = None ∧
  seenElements r' = seenElements r ∧
  uniqueElements r' = uniqueElements r ∧
  done r' = done r ∧
  phase r' = (if done r then Completed else Awaiting).
Proof.
  intros [] Hok. destruct r as [U S rn d o ph]. simpl in *.
  apply negb_true_iff, bool_decide_eq_false in Hok.
  destruct ph; [| done | |]; simpl.
  - destruct inv_not_started0 as [-> ->]; [done|]. simpl.
    split; [|done]. split; inv_goal;
      try (intros _ HU; destruct U; [done|]; simpl; lia).
  - unfold loop_head. simpl. destruct d; simpl;
      (split; [|done]); split; inv_goal.
  - rewrite inv_completed0 by done. split; [|done]. split; inv_goal.
Qed.

(** The observer is notified. *)
Lemma resolver_notify_spec (r : Resolver)
    (entries : list IntersectionObserverEntry) :
  resolver_inv r → event_ok r (Notify entries) = true →
  ∃ new,
    partition_new entries (seenElements r)
      = (seenElements r ++ (target <$> new), new) ∧
    (∀ entry, entry ∈ entries →
       target entry ∈ seenElements r ++ (target <$> new)) ∧
    let r' := (resolver_step r (Notify entries)).1 in
    let out := (resolver_step r (Notify entries)).2 in
    resolver_inv r' ∧
    seenElements r' = seenElements r ++ (target <$> new) ∧
    uniqueElements r' = uniqueElements r ∧
    ((phase r = Awaiting ∧ new ≠ [] ∧ out = Some new ∧ phase r' = Yielded) ∨
     (phase r = Awaiting ∧ new = [] ∧ out = None ∧ phase r' = Awaiting) ∨
     (phase r = Yielded ∧ out = None ∧ phase r' = Yielded)).
Proof.
  intros Hinv Hok. simpl in Hok.
  apply andb_true_iff in Hok as [Hok Htargets].
  apply andb_true_iff in Hok as [Hobs Hne].
  apply negb_true_iff, bool_decide_eq_false in Hne.
  rewrite forallb_forall in Htargets.
  destruct (partition_new_spec entries (seenElements r)) as
    (new & Hpart & Hnd & Hsub & Hcov); [by destruct Hinv|].
  exists new. split; [done|]. split; [done|].
  assert (uniqueElements r ≠ []) as HU.
  { destruct entries as [|entry ?]; [done|].
    specialize (Htargets entry (or_introl eq_refl)).
    apply bool_decide_eq_true in Htargets. intros E. rewrite E in Htargets.
    by apply elem_of_nil in Htargets. }
  assert (∀ e, e ∈ seenElements r ++ (target <$> new) → e ∈ uniqueElements r)
    as Hsub'.
  { intros e He. apply elem_of_app in He as [He|He]; [by apply Hinv|].
    apply list_elem_of_fmap in He as (entry & -> & He).
    apply Hsub, list_elem_of_In, Htargets, bool_decide_eq_true in He. done. }
  pose proof (nodup_subset_length _ _ Hnd Hsub') as Hlen.
  destruct Hinv. destruct r as [U S rn d o ph].
  unfold resolver_step, observer_callback. simpl in *. subst o.
  rewrite Hpart. destruct inv_observing0 as [-> Hph]; [done|].
  specialize (inv_not_done0 eq_refl HU).
  destruct ph; [done| | |by specialize (inv_completed0 eq_refl)].
  - destruct inv_awaiting0 as [-> _]; [done|].
    destruct new as [|entry new]; simpl.
    + rewrite app_nil_r in *. rewrite bool_decide_eq_false_2 by lia. simpl.
      split; [|split; [done|split; [done|right; left; done]]].
      split; inv_goal.
    + case_bool_decide as Hsz; simpl.
      * split; [|split; [done|split; [done|left; done]]].
        split; inv_goal; try lia.
      * split; [|split; [done|split; [done|left; done]]].
        split; inv_goal; try (intros _ _; lia).
  - rewrite inv_yielded0 by done. rewrite andb_false_r.
    case_bool_decide as Hsz; simpl.
    + split; [|split; [done|split; [done|right; right; done]]].
      split; inv_goal; try lia.
    + split; [|split; [done|split; [done|right; right; done]]].
      split; inv_goal; try (intros _ _; lia).
Qed.

Lemma resolver_run_cons (r : Resolver) (ev : ResolverEvent)
    (evs : list ResolverEvent) :
  resolver_run r (ev :: evs) =
  ((resolver_run (resolver_step r ev).1 evs).1,
   option_list (resolver_step r ev).2
   ++ (resolver_run (resolver_step r ev).1 evs).2).
Proof.
  simpl. destruct (resolver_step r ev) as [r1 out]. simpl.
  by destruct (resolver_run r1 evs).
Qed.

(** A run of admissible events: the seen-set only grows, by elements
    that the bursts notified; the batches are non-empty and their
    targets are among the elements newly seen, in the same order; every
    element notified is seen. *)
Lemma resolver_run_spec (evs : list ResolverEvent) (r : Resolver) :
  resolver_inv r → admissible r evs = true →
  let r' := (resolver_run r evs).1 in
  let batches := (resolver_run r evs).2 in
  resolver_inv r' ∧
  uniqueElements r' = uniqueElements r ∧
  Forall (λ batch, batch ≠ []) batches ∧
  ∃ rest,
    seenElements r' = seenElements r ++ rest ∧
    (target <$> concat batches) `sublist_of` rest ∧
    (∀ e, e ∈ notified evs → e ∈ seenElements r').
Proof.
  revert r. induction evs as [|ev evs IH]; intros r Hinv Hadm.
  - simpl. split; [done|]. split; [done|]. split; [constructor|].
    exists []. rewrite app_nil_r. split; [done|]. split; [done|].
    intros e He. by apply elem_of_nil in He.
  - simpl in Hadm. apply andb_true_iff in Hadm as [Hok Hadm].
    cbv zeta. rewrite resolver_run_cons. cbn [fst snd].
    destruct ev as [|entries].
    + destruct (resolver_next_spec r Hinv Hok) as (Hinv1 & Hout & Hseen & HU & _).
      destruct (IH _ Hinv1 Hadm) as (Hinv' & HU' & Hne & rest & Hs & Hsl & Hnot).
      rewrite Hout. simpl option_list. rewrite app_nil_l.
      split; [done|]. split; [congruence|]. split; [done|].
      exists rest. split; [congruence|]. split; [done|]. done.
    + destruct (resolver_notify_spec r entries Hinv Hok)
        as (new & _ & Hcov & Hinv1 & Hseen & HU & Hcases).
      destruct (IH _ Hinv1 Hadm) as (Hinv' & HU' & Hne & rest & Hs & Hsl & Hnot).
      split; [done|]. split; [congruence|].
      assert (∀ e, e ∈ notified (Notify entries :: evs) →
                   e ∈ seenElements (resolver_run (resolver_step r (Notify entries)).1 evs).1)
        as Hnot'.
      { intros e He. unfold notified in He. rewrite bind_cons in He.
        apply elem_of_app in He as [He|He]; [|by apply Hnot].
        apply list_elem_of_fmap in He as (entry & -> & He).
        rewrite Hs, Hseen. apply elem_of_app. left. by apply Hcov. }
      destruct Hcases as [(_ & Hnew & -> & _)|[(_ & _ & -> & _)|(_ & -> & _)]].
      * split; [by constructor|].
        exists ((target <$> new) ++ rest). split.
        { rewrite Hs, Hseen. by rewrite app_assoc. }
        split; [|done]. simpl. rewrite fmap_app. by apply sublist_app.
      * split; [done|].
        exists ((target <$> new) ++ rest). split.
        { rewrite Hs, Hseen. by rewrite app_assoc. }
        split; [|done]. simpl. by apply sublist_inserts_l.
      * split; [done|].
        exists ((target <$> new) ++ rest). split.
        { rewrite Hs, Hseen. by rewrite app_assoc. }
        split; [|done]. simpl. by apply sublist_inserts_l.
Qed.

(** The amended form of C3.  For a non-empty set of elements, after any
    admissible run of the resolver (requests of the consumer and bursts
    of the observer, in any order the environment allows) in which every
    element has been notified at least once: the batches produced are
    non-empty, their union contains each element at most once and only
    elements of the set, so there are at most [K] entries in all; the
    resolver has set [done] and disconnected the observer; and the
    consumer's next request, if it has not been made yet, gets the
    completion. *)
Theorem resolver_once_each_and_completes (elements : list Element)
    (evs : list ResolverEvent) :
  elements ≠ [] →
  admissible (getBatchedRectMap elements) evs = true →
  (∀ e, e ∈ elements → e ∈ notified evs) →
  let r := (resolver_run (getBatchedRectMap elements) evs).1 in
  let batches := (resolver_run (getBatchedRectMap elements) evs).2 in
  NoDup (target <$> concat batches) ∧
  (∀ e, e ∈ target <$> concat batches → e ∈ elements) ∧
  Forall (λ batch, batch ≠ []) batches ∧
  (length (concat batches) ≤ length (new_Set elements))%nat ∧
  done r = true ∧
  observing r = false ∧
  phase (resolver_step r Next).1 = Completed.
Proof.
  intros Hne Hadm Hall.
  destruct (resolver_run_spec evs _ (getBatchedRectMap_inv elements) Hadm)
    as (Hinv & HU & Hbatches & rest & Hs & Hsl & Hnot).
  cbv zeta. simpl in HU, Hs.
  set (r := (resolver_run (getBatchedRectMap elements) evs).1) in *.
  set (batches := (resolver_run (getBatchedRectMap elements) evs).2) in *.
  destruct (new_Set_spec elements) as [HnU HeU].
  assert (NoDup (target <$> concat batches)) as Hnd.
  { eapply sublist_NoDup; [|exact Hsl]. rewrite <- Hs. by destruct Hinv. }
  assert (∀ e, e ∈ target <$> concat batches → e ∈ elements) as Hsub.
  { intros e He. apply HeU. rewrite <- HU. apply Hinv. rewrite Hs.
    eapply elem_of_sublist; [exact He|exact Hsl]. }
  assert (done r = true) as Hdone.
  { destruct (done r) eqn:Hd; [done|]. exfalso.
    assert (uniqueElements r ≠ []) as HUne.
    { rewrite HU. intros E. destruct elements as [|e ?]; [done|].
      assert (e ∈ new_Set (e :: elements)) as He by (apply HeU; by left).
      rewrite E in He. by apply elem_of_nil in He. }
    pose proof (inv_not_done r Hinv Hd HUne) as Hlt.
    assert (length (uniqueElements r) ≤ length (seenElements r))%nat; [|lia].
    apply nodup_subset_length; [by destruct Hinv|].
    intros e He. apply Hnot, Hall, HeU. by rewrite <- HU. }
  split; [done|]. split; [done|]. split; [done|]. split.
  { rewrite <- (length_fmap target). apply nodup_subset_length; [done|].
    intros e He. apply HeU. by apply Hsub. }
  split; [done|].
  assert (observing r = false) as Hobs.
  { destruct (observing r) eqn:Ho; [|done].
    destruct (inv_observing r Hinv Ho). congruence. }
  split; [done|].
  destruct r as [U S rn d o ph]. simpl in *. subst d o.
  destruct ph; simpl; try done.
  by destruct (inv_awaiting _ Hinv eq_refl).
Qed.

Lemma resolver_run_app (r : Resolver) (evs evs' : list ResolverEvent) :
  resolver_run r (evs ++ evs') =
  ((resolver_run (resolver_run r evs).1 evs').1,
   (resolver_run r evs).2 ++ (resolver_run (resolver_run r evs).1 evs').2).
Proof.
  revert r. induction evs as [|ev evs IH]; intros r.
  - simpl. by destruct (resolver_run r evs').
  - rewrite <- app_comm_cons, !resolver_run_cons, IH. cbn [fst snd].
    by rewrite app_assoc.
Qed.

Lemma admissible_app (r : Resolver) (evs evs' : list ResolverEvent) :
  admissible r (evs ++ evs') =
  admissible r evs && admissible (resolver_run r evs).1 evs'.
Proof.
  revert r. induction evs as [|ev evs IH]; intros r; [done|].
  rewrite <- app_comm_cons, resolver_run_cons. cbn [admissible fst].
  by rewrite IH, andb_assoc.
Qed.

(** A resolver that waits for elements of an empty set: the environment
    can do nothing to it. *)
Lemma empty_resolver_stuck (r : Resolver) (ev : ResolverEvent) :
  uniqueElements r = [] → phase r = Awaiting → event_ok r ev = false.
Proof.
  intros HU Hph. destruct ev as [|entries]; simpl.
  - by rewrite Hph.
  - rewrite HU. destruct entries as [|entry entries].
    + by rewrite andb_false_r.
    + cbn [forallb].
      rewrite (bool_decide_eq_false_2 (target entry ∈ []))
        by apply not_elem_of_nil.
      cbn [andb]. by rewrite andb_false_r.
Qed.

Lemma empty_resolver_runs (evs : list ResolverEvent) :
  admissible (getBatchedRectMap []) evs = true → evs = [] ∨ evs = [Next].
Proof.
  destruct evs as [|[|entries] evs]; [by left| |done].
  destruct evs as [|ev evs]; [by right|].
  simpl. intros H. apply andb_true_iff in H as [H _].
  by rewrite empty_resolver_stuck in H.
Qed.

(** Two elements report in two bursts, the second burst repeating the
    first element. *)
Lemma resolver_once_each_and_completes_witness :
  let entry e :=
    {| target := e; isIntersecting := true;
       intersectionRect := new_DOMRect 0 0 10 10 |} in
  let elements := [1%positive; 2%positive; 1%positive] in
  let evs := [Next; Notify [entry 1%positive]; Next;
              Notify [entry 1%positive; entry 2%positive]; Next] in
  elements ≠ [] ∧
  admissible (getBatchedRectMap elements) evs = true ∧
  (∀ e, e ∈ elements → e ∈ notified evs) ∧
  (resolver_run (getBatchedRectMap elements) evs).2
    = [[entry 1%positive]; [entry 2%positive]] ∧
  NoDup (target <$> concat (resolver_run (getBatchedRectMap elements) evs).2) ∧
  done (resolver_run (getBatchedRectMap elements) evs).1 = true.
Proof.
  intros entry elements evs.
  assert (elements ≠ []) as H1 by done.
  assert (admissible (getBatchedRectMap elements) evs = true) as H2
    by reflexivity.
  assert (∀ e, e ∈ elements → e ∈ notified evs) as H3.
  { intros e He. subst elements evs. simpl. set_solver. }
  pose proof (resolver_once_each_and_completes elements evs H1 H2 H3) as H.
  split; [done|]. split; [done|]. split; [done|]. split; [reflexivity|].
  split; [apply H|apply H].
Defined.

(** C3 as stated fails for the empty set: asked for the first batch,
    the resolver waits for a notification that cannot come.  No
    admissible run of it sets [done], disconnects the observer or
    completes. *)
Lemma resolver_of_nothing_never_completes :
  ¬ ∃ evs,
      admissible (getBatchedRectMap []) evs = true ∧
      (done (resolver_run (getBatchedRectMap []) evs).1 = true ∨
       phase (resolver_run (getBatchedRectMap []) evs).1 = Completed ∨
       phase (resolver_step (resolver_run (getBatchedRectMap []) evs).1 Next).1
         = Completed).
Proof.
  intros (evs & Hadm & H).
  destruct (empty_resolver_runs evs Hadm) as [-> | ->]; simpl in H;
    by destruct H as [H|[H|H]].
Qed.

(** The amended form of C7.  Take a resolver after any admissible run
    and a burst the environment may deliver to it; let [new] be the
    entries of the burst whose element was not seen before.  The
    callback adds their elements to the seen-set and returns.  If the
    consumer is waiting ([Awaiting]) and [new] is not empty, [new] is
    the batch handed to the consumer by this burst.  If the consumer is
    not waiting (it holds the previous batch, [Yielded]), nothing is
    handed over and nothing is kept for later: no batch of any later
    run contains an element seen so far, so these entries are dropped.
    A burst hands over at most one batch, and none while one is
    outstanding. *)
Theorem resolver_burst_delivery (elements : list Element)
    (evs : list ResolverEvent) (entries : list IntersectionObserverEntry) :
  admissible (getBatchedRectMap elements) (evs ++ [Notify entries]) = true →
  let r := (resolver_run (getBatchedRectMap elements) evs).1 in
  let new := (partition_new entries (seenElements r)).2 in
  let r' := (resolver_step r (Notify entries)).1 in
  let out := (resolver_step r (Notify entries)).2 in
  seenElements r' = seenElements r ++ (target <$> new) ∧
  ((phase r = Awaiting ∧ new ≠ [] ∧ out = Some new ∧ phase r' = Yielded) ∨
   (phase r = Awaiting ∧ new = [] ∧ out = None ∧ phase r' = Awaiting) ∨
   (phase r = Yielded ∧ out = None ∧ phase r' = Yielded)) ∧
  (∀ later e,
     admissible r' later = true → e ∈ seenElements r' →
     e ∉ target <$> concat (resolver_run r' later).2).
Proof.
  intros Hadm. rewrite admissible_app in Hadm.
  apply andb_true_iff in Hadm as [Hadm Hok].
  simpl in Hok. rewrite andb_true_r in Hok.
  destruct (resolver_run_spec evs _ (getBatchedRectMap_inv elements) Hadm)
    as (Hinv & _).
  cbv zeta.
  set (r := (resolver_run (getBatchedRectMap elements) evs).1) in *.
  destruct (resolver_notify_spec r entries Hinv Hok)
    as (new & Hpart & _ & Hinv' & Hseen & _ & Hcases).
  rewrite Hpart. cbn [snd]. split; [done|]. split; [done|].
  intros later e Hlater He Hin.
  destruct (resolver_run_spec later _ Hinv' Hlater)
    as (Hinv'' & _ & _ & rest & Hs & Hsl & _).
  pose proof (inv_seen_nodup _ Hinv'') as Hnd. rewrite Hs in Hnd.
  apply NoDup_app in Hnd as (_ & Hdisj & _).
  apply (Hdisj e He). eapply elem_of_sublist; [exact Hin|exact Hsl].
Qed.

(** A burst for a waiting consumer. *)
Lemma resolver_burst_delivery_witness :
  let entry e :=
    {| target := e; isIntersecting := true;
       intersectionRect := new_DOMRect 0 0 10 10 |} in
  let elements := [1%positive; 2%positive] in
  admissible (getBatchedRectMap elements)
    ([Next] ++ [Notify [entry 2%positive]]) = true ∧
  (resolver_step (resolver_run (getBatchedRectMap elements) [Next]).1
     (Notify [entry 2%positive])).2 = Some [entry 2%positive] ∧
  seenElements
    (resolver_step (resolver_run (getBatchedRectMap elements) [Next]).1
       (Notify [entry 2%positive])).1 = [2%positive].
Proof.
  intros entry elements.
  assert (admissible (getBatchedRectMap elements)
            ([Next] ++ [Notify [entry 2%positive]]) = true) as H1
    by reflexivity.
  pose proof (resolver_burst_delivery elements [Next] [entry 2%positive] H1)
    as H.
  split; [done|]. split; [reflexivity|]. apply H.
Defined.

(** C7 as stated fails: element 1 is handed to the consumer; while the
    consumer still holds that batch, a burst reports element 2; then the
    consumer asks again.  The run is admissible and complete, and
    element 2 is in no batch. *)
Lemma resolver_drops_burst_without_consumer :
  ∃ r,
    admissible (getBatchedRectMap [1%positive; 2%positive])
      [Next;
       Notify [{| target := 1%positive; isIntersecting := true;
                  intersectionRect := new_DOMRect 0 0 10 10 |}];
       Notify [{| target := 2%positive; isIntersecting := true;
                  intersectionRect := new_DOMRect 20 20 10 10 |}];
       Next] = true ∧
    resolver_run (getBatchedRectMap [1%positive; 2%positive])
      [Next;
       Notify [{| target := 1%positive; isIntersecting := true;
                  intersectionRect := new_DOMRect 0 0 10 10 |}];
       Notify [{| target := 2%positive; isIntersecting := true;
                  intersectionRect := new_DOMRect 20 20 10 10 |}];
       Next]
    = (r, [[{| target := 1%positive; isIntersecting := true;
               intersectionRect := new_DOMRect 0 0 10 10 |}]]) ∧
    phase r = Completed ∧
    seenElements r = [1%positive; 2%positive].
Proof. eexists. split; [reflexivity|]. split; [reflexivity|]. done. Qed.

End ResolverProofs.

(** ** Flush cycles *)

Section FlushProofs.

Variable getFiberId : Fiber → Z.

Lemma set_delete_elem `{EqDecision A} (a b : A) (s : list A) :
  b ∈ set_delete a s ↔ b ∈ s ∧ b ≠ a.
Proof. unfold set_delete. rewrite list_elem_of_filter. tauto. Qed.

(** The clearing loop over the keys [l]. *)
Lemma clear_loop_spec (l : list Fiber) (st : Aggregator) :
  let st' :=
    fold_left
      (λ st fiber,
         {| blueprintMap := delete fiber (blueprintMap st);
            blueprintMapKeys := set_delete fiber (blueprintMapKeys st) |})
      l st in
  (∀ f, blueprintMap st' !! f =
        if bool_decide (f ∈ l) then None else blueprintMap st !! f) ∧
  (∀ f, f ∈ blueprintMapKeys st' ↔ f ∈ blueprintMapKeys st ∧ f ∉ l).
Proof.
  revert st. induction l as [|k l IH]; intros st; cbv zeta.
  - simpl. split; [done|]. intros f. split; [|tauto].
    intros Hf. split; [done|]. apply not_elem_of_nil.
  - cbn [fold_left].
    destruct (IH {| blueprintMap := delete k (blueprintMap st);
                    blueprintMapKeys := set_delete k (blueprintMapKeys st) |})
      as [Hm Hk].
    split.
    + intros f. rewrite Hm. cbn [blueprintMap].
      destruct (decide (f = k)) as [->|Hne].
      * rewrite lookup_delete_eq.
        rewrite (bool_decide_eq_true_2 (k ∈ k :: l)) by (by left).
        by case_bool_decide.
      * rewrite lookup_delete_ne by done.
        destruct (decide (f ∈ l)) as [Hin|Hin].
        -- rewrite !bool_decide_eq_true_2; [done|by right|done].
        -- rewrite !bool_decide_eq_false_2; [done| |done].
           intros Hc. apply elem_of_cons in Hc as [?|?]; done.
    + intros f. rewrite Hk. cbn [blueprintMapKeys].
      rewrite set_delete_elem, not_elem_of_cons. tauto.
Qed.

(** With every blueprint under a key of the key set, the loop empties
    both. *)
Lemma clear_blueprints_empty (st : Aggregator) :
  (∀ f, is_Some (blueprintMap st !! f) → f ∈ blueprintMapKeys st) →
  clear_blueprints st = empty_aggregator.
Proof.
  intros Hkeys. unfold clear_blueprints.
  destruct (clear_loop_spec (blueprintMapKeys st) st) as [Hm Hk].
  destruct (fold_left _ _ _) as [m ks]. simpl in *.
  unfold empty_aggregator. f_equal.
  - apply map_eq. intros f. rewrite Hm, lookup_empty.
    case_bool_decide as Hin; [done|].
    destruct (blueprintMap st !! f) eqn:E; [|done].
    destruct Hin. apply Hkeys. by eexists.
  - destruct ks as [|k ks]; [done|].
    assert (k ∈ k :: ks) as Hin by (by left).
    apply Hk in Hin. tauto.
Qed.

Lemma outlineFiber_keys (fiber : FiberInfo) (st : Aggregator) :
  (∀ f, is_Some (blueprintMap st !! f) → f ∈ blueprintMapKeys st) →
  ∀ f, is_Some (blueprintMap (outlineFiber fiber st) !! f) →
       f ∈ blueprintMapKeys (outlineFiber fiber st).
Proof.
  intros Hkeys f. unfold outlineFiber.
  destruct (negb (isCompositeFiber fiber)); [apply Hkeys|].
  destruct (truthy_name (fiber_name fiber)); [|apply Hkeys].
  destruct (blueprintMap st !! fiber_ref fiber) eqn:E; simpl.
  - destruct (decide (fiber_ref fiber = f)) as [<-|Hne].
    + intros _. apply Hkeys. by rewrite E.
    + rewrite lookup_insert_ne by done. apply Hkeys.
  - destruct (decide (fiber_ref fiber = f)) as [<-|Hne].
    + intros _. apply set_add_elem. by left.
    + rewrite lookup_insert_ne by done. intros Hf.
      apply set_add_elem. right. by apply Hkeys.
Qed.

(** The parts of the pipeline a burst of one flush leaves alone. *)
Lemma flush_notify_frame (entries : list IntersectionObserverEntry)
    (p : Pipeline) (fc : FlushCycle) :
  let p' := (flush_notify getFiberId entries p fc).1 in
  flushes p' = flushes p ∧
  (aggregator p' = aggregator p ∨
   aggregator p' = clear_blueprints (aggregator p)).
Proof.
  unfold flush_notify, flush_batch.
  destruct (resolver_step (fc_resolver fc) (Notify entries)) as [r [batch|]];
    case_match; simpl; auto.
Qed.

(** A burst of the observer of a flush that is waiting: the flush is
    waiting again or has finished, and if it has finished the blueprints
    have been cleared. *)
Lemma flush_notify_spec (entries : list IntersectionObserverEntry)
    (p : Pipeline) (fc : FlushCycle) :
  resolver_inv (fc_resolver fc) →
  phase (fc_resolver fc) = Awaiting →
  event_ok (fc_resolver fc) (Notify entries) = true →
  let p' := (flush_notify getFiberId entries p fc).1 in
  let fc' := (flush_notify getFiberId entries p fc).2 in
  resolver_inv (fc_resolver fc') ∧
  ((phase (fc_resolver fc') = Awaiting ∧ aggregator p' = aggregator p) ∨
   (phase (fc_resolver fc') = Completed ∧
    aggregator p' = clear_blueprints (aggregator p))).
Proof.
  intros Hinv Hph Hok.
  destruct (resolver_notify_spec _ entries Hinv Hok)
    as (new & _ & _ & Hinv1 & _ & _ & Hcases).
  unfold flush_notify, flush_batch. rewrite Hph.
  destruct (resolver_step (fc_resolver fc) (Notify entries)) as [r out].
  cbn [fst snd] in *.
  destruct Hcases as [(_ & _ & -> & Hy)|[(_ & _ & -> & Ha)|(Hc & _)]];
    [| |congruence].
  - assert (event_ok r Next = true) as Hnext by (simpl; by rewrite Hy).
    destruct (resolver_next_spec r Hinv1 Hnext) as (Hinv2 & _ & _ & _ & _ & Hph2).
    cbn [fc_resolver]. rewrite Hph2.
    destruct (done r); simpl; (split; [done|]); [by right|by left].
  - cbn [fc_resolver]. rewrite Ha. simpl. split; [done|by left].
Qed.

Lemma flush_begin_spec (st : Aggregator) :
  resolver_inv (fc_resolver (flush_begin st)) ∧
  phase (fc_resolver (flush_begin st)) = Awaiting ∧
  uniqueElements (fc_resolver (flush_begin st)) = new_Set (flush_elements st).
Proof.
  unfold flush_begin. cbn [fc_resolver].
  destruct (resolver_next_spec (getBatchedRectMap (flush_elements st))
              (getBatchedRectMap_inv _) eq_refl)
    as (Hinv & _ & _ & HU & _ & Hph).
  done.
Qed.

Lemma pipeline_step_inv (p : Pipeline) (ev : PipelineEvent) :
  pipeline_inv p → pipeline_event_ok p ev = true →
  pipeline_inv (pipeline_step getFiberId p ev).
Proof.
  intros [Hkeys Hfl] Hok. destruct ev as [fiber| |i entries]; simpl.
  - split; simpl; [by apply outlineFiber_keys|done].
  - split; simpl; [done|]. apply Forall_app. split; [done|].
    apply Forall_singleton.
    destruct (flush_begin_spec (aggregator p)) as (? & ? & ?). auto.
  - simpl in Hok. destruct (flushes p !! i) as [fc|] eqn:Hi; [|done].
    pose proof (Forall_lookup_1 _ _ _ _ Hfl Hi) as [Hinv Hph].
    destruct Hph as [Hph|Hph].
    2:{ apply andb_true_iff in Hok as [Hok _].
        apply andb_true_iff in Hok as [Hobs _].
        destruct (inv_observing _ Hinv Hobs) as [Hd _].
        rewrite (inv_completed _ Hinv Hph) in Hd. done. }
    pose proof (flush_notify_spec entries p fc Hinv Hph Hok) as [Hinv' Hcases].
    pose proof (flush_notify_frame entries p fc) as [Hframe _].
    destruct (flush_notify getFiberId entries p fc) as [p' fc'].
    cbn [fst snd] in *. split; cbn [aggregator flushes].
    + destruct Hcases as [[_ ->]|[_ ->]]; [done|].
      rewrite clear_blueprints_empty by done. simpl.
      intros f [? Hf]. by rewrite lookup_empty in Hf.
    + rewrite Hframe. apply Forall_insert; [done|].
      split; [done|]. destruct Hcases as [[-> _]|[-> _]]; auto.
Qed.

Lemma empty_pipeline_inv : pipeline_inv empty_pipeline.
Proof.
  split; simpl; [|constructor].
  intros f [? Hf]. by rewrite lookup_empty in Hf.
Qed.

Lemma pipeline_run_inv (evs : list PipelineEvent) (p : Pipeline) :
  pipeline_inv p → pipeline_admissible getFiberId p evs = true →
  pipeline_inv (pipeline_run getFiberId p evs).
Proof.
  revert p. induction evs as [|ev evs IH]; intros p Hinv Hadm; [done|].
  simpl in Hadm. apply andb_true_iff in Hadm as [Hok Hadm].
  unfold pipeline_run. simpl. apply IH; [|done].
  by apply pipeline_step_inv.
Qed.

Lemma pipeline_admissible_app (p : Pipeline) (evs evs' : list PipelineEvent) :
  pipeline_admissible getFiberId p (evs ++ evs') =
  pipeline_admissible getFiberId p evs
  && pipeline_admissible getFiberId (pipeline_run getFiberId p evs) evs'.
Proof.
  revert p. induction evs as [|ev evs IH]; intros p; [done|].
  rewrite <- app_comm_cons. cbn [pipeline_admissible].
  rewrite IH, andb_assoc. done.
Qed.

(** C6. Take the pipeline after any admissible sequence of renders,
    flush starts and observer bursts, and a further burst for the
    observer of flush [i].  If that burst completes the resolution of
    the flush (its resolver signals done: the generator has finished),
    then the blueprint map and the key set are empty afterwards: every
    blueprint is removed, with or without a rectangle, whenever it was
    recorded. *)
Theorem flush_completion_clears_blueprints (evs : list PipelineEvent)
    (i : nat) (entries : list IntersectionObserverEntry) (fc' : FlushCycle) :
  pipeline_admissible getFiberId empty_pipeline
    (evs ++ [Intersection i entries]) = true →
  let p := pipeline_run getFiberId empty_pipeline evs in
  let p' := pipeline_step getFiberId p (Intersection i entries) in
  flushes p' !! i = Some fc' →
  phase (fc_resolver fc') = Completed →
  blueprintMap (aggregator p') = ∅ ∧ blueprintMapKeys (aggregator p') = [].
Proof.
  intros Hadm. rewrite pipeline_admissible_app in Hadm.
  apply andb_true_iff in Hadm as [Hadm Hok].
  pose proof (pipeline_run_inv evs _ empty_pipeline_inv Hadm) as Hinv.
  cbv zeta. set (p := pipeline_run getFiberId empty_pipeline evs) in *.
  simpl in Hok. rewrite andb_true_r in Hok. simpl.
  destruct (flushes p !! i) as [fc|] eqn:Hi; [|done].
  pose proof (Forall_lookup_1 _ _ _ _ (inv_flushes _ Hinv) Hi) as [Hrinv Hph].
  destruct Hph as [Hph|Hph].
  2:{ apply andb_true_iff in Hok as [Hok _].
      apply andb_true_iff in Hok as [Hobs _].
      destruct (inv_observing _ Hrinv Hobs) as [Hd _].
      rewrite (inv_completed _ Hrinv Hph) in Hd. done. }
  pose proof (flush_notify_spec entries p fc Hrinv Hph Hok) as [_ Hcases].
  pose proof (flush_notify_frame entries p fc) as [Hframe _].
  destruct (flush_notify getFiberId entries p fc) as [p1 fc1].
  cbn [fst snd aggregator flushes] in *.
  rewrite Hframe. intros Hfc' Hdone.
  rewrite list_lookup_insert_eq in Hfc' by (by eapply lookup_lt_Some).
  injection Hfc' as ->.
  destruct Hcases as [[Ha _]|[_ ->]]; [congruence|].
  rewrite clear_blueprints_empty by apply Hinv. done.
Qed.

(** A flush that waits for the elements of an empty set stays as it is
    under every admissible run, none of whose events is a burst of its
    observer. *)
Lemma stuck_flush (evs : list PipelineEvent) (p : Pipeline) (i : nat)
    (fc : FlushCycle) :
  flushes p !! i = Some fc →
  uniqueElements (fc_resolver fc) = [] →
  phase (fc_resolver fc) = Awaiting →
  pipeline_admissible getFiberId p evs = true →
  flushes (pipeline_run getFiberId p evs) !! i = Some fc ∧
  Forall (λ ev, ∀ entries, ev ≠ Intersection i entries) evs.
Proof.
  intros Hi HU Hph. revert p Hi.
  induction evs as [|ev evs IH]; intros p Hi Hadm; [by split|].
  cbn [pipeline_admissible] in Hadm.
  apply andb_true_iff in Hadm as [Hok Hadm].
  assert (flushes (pipeline_step getFiberId p ev) !! i = Some fc ∧
          ∀ entries, ev ≠ Intersection i entries) as [Hi' Hev].
  { destruct ev as [fiber| |j entries]; simpl.
    - done.
    - split; [|done]. by apply lookup_app_l_Some.
    - destruct (decide (j = i)) as [->|Hne].
      + cbn [pipeline_event_ok] in Hok. rewrite Hi in Hok.
        by rewrite (empty_resolver_stuck _ _ HU Hph) in Hok.
      + split; [|congruence].
        destruct (flushes p !! j) as [fcj|] eqn:Hj; [|done].
        pose proof (flush_notify_frame entries p fcj) as [Hframe _].
        destruct (flush_notify getFiberId entries p fcj) as [p1 fc1].
        cbn [fst flushes] in *. rewrite Hframe.
        by rewrite list_lookup_insert_ne. }
  destruct (IH _ Hi' Hadm) as [Hfin Hall].
  split; [done|]. by constructor.
Qed.

(** The flush started in a pipeline without keys. *)
Lemma flush_of_nothing (p : Pipeline) :
  blueprintMapKeys (aggregator p) = [] →
  let p1 := pipeline_step getFiberId p Flush in
  ∃ fc,
    flushes p1 !! length (flushes p) = Some fc ∧
    uniqueElements (fc_resolver fc) = [] ∧
    phase (fc_resolver fc) = Awaiting.
Proof.
  intros Hkeys. exists (flush_begin (aggregator p)). split.
  - simpl. rewrite lookup_app_r by done. by rewrite Nat.sub_diag.
  - destruct (flush_begin_spec (aggregator p)) as (_ & Hph & HU).
    split; [|done]. rewrite HU. unfold flush_elements. by rewrite Hkeys.
Qed.

(** The amended form of C8.  [flushOutlines()] called with no blueprint
    recorded makes no [renderOutlines] call and leaves the blueprint map
    and the key set as they are, but it does not terminate: its resolver
    observes no element, so no burst can be delivered to it, and under
    every admissible continuation the flush is still waiting. *)
Theorem flush_of_nothing_waits_forever (p : Pipeline) :
  blueprintMapKeys (aggregator p) = [] →
  let i := length (flushes p) in
  let p1 := pipeline_step getFiberId p Flush in
  aggregator p1 = aggregator p ∧
  renderCalls p1 = renderCalls p ∧
  ∀ evs,
    pipeline_admissible getFiberId p1 evs = true →
    Forall (λ ev, ∀ entries, ev ≠ Intersection i entries) evs ∧
    ∃ fc,
      flushes (pipeline_run getFiberId p1 evs) !! i = Some fc ∧
      phase (fc_resolver fc) = Awaiting.
Proof.
  intros Hkeys. cbv zeta. split; [done|]. split; [done|].
  intros evs Hadm.
  destruct (flush_of_nothing p Hkeys) as (fc & Hi & HU & Hph).
  destruct (stuck_flush evs _ _ fc Hi HU Hph Hadm) as [Hfin Hall].
  split; [done|]. by exists fc.
Qed.

End FlushProofs.

(** A component renders twice; its element reports in the only burst of
    the flush, which completes the flush. *)
Lemma flush_completion_clears_blueprints_witness :
  let getFiberId (f : Fiber) := Z.pos f in
  let fiber :=
    {| fiber_ref := 1%positive; isCompositeFiber := true;
       fiber_type_string := None; getDisplayName := Some "App";
       getNearestHostFibers := [ElementNode 7%positive; OtherNode];
       didFiberCommit := true |} in
  let entries :=
    [{| target := 7%positive; isIntersecting := true;
        intersectionRect := new_DOMRect 10 10 50 50 |}] in
  let evs := [OnRender fiber; OnRender fiber; Flush] in
  let p' := pipeline_run getFiberId empty_pipeline
              (evs ++ [Intersection 0 entries]) in
  pipeline_admissible getFiberId empty_pipeline
    (evs ++ [Intersection 0 entries]) = true ∧
  (phase ∘ fc_resolver <$> flushes p' !! 0%nat) = Some Completed ∧
  renderCalls p' =
    [[{| od_id := 1; od_name := "App"; od_count := 2;
         od_x := 10; od_y := 10; od_width := 50; od_height := 50;
         od_didCommit := 1 |}]] ∧
  blueprintMap (aggregator p') = ∅ ∧ blueprintMapKeys (aggregator p') = [].
Proof.
  intros getFiberId fiber entries evs p'.
  assert (pipeline_admissible getFiberId empty_pipeline
            (evs ++ [Intersection 0 entries]) = true) as H1 by reflexivity.
  split; [done|]. split; [reflexivity|]. split; [reflexivity|].
  subst p'. unfold pipeline_run. rewrite fold_left_app.
  eapply (flush_completion_clears_blueprints getFiberId evs 0 entries);
    [exact H1|reflexivity|reflexivity].
Defined.

(** An idle pipeline: a flush is started, then a component renders and a
    second flush is started. *)
Lemma flush_of_nothing_waits_forever_witness :
  let getFiberId (f : Fiber) := Z.pos f in
  let fiber :=
    {| fiber_ref := 1%positive; isCompositeFiber := true;
       fiber_type_string := None; getDisplayName := Some "App";
       getNearestHostFibers := [ElementNode 7%positive];
       didFiberCommit := true |} in
  let p1 := pipeline_step getFiberId empty_pipeline Flush in
  blueprintMapKeys (aggregator empty_pipeline) = [] ∧
  renderCalls p1 = [] ∧
  pipeline_admissible getFiberId p1 [OnRender fiber; Flush] = true ∧
  ∃ fc,
    flushes (pipeline_run getFiberId p1 [OnRender fiber; Flush]) !! 0%nat
      = Some fc ∧
    phase (fc_resolver fc) = Awaiting.
Proof.
  intros getFiberId fiber p1.
  pose proof (flush_of_nothing_waits_forever getFiberId empty_pipeline eq_refl)
    as (_ & Hcalls & Hevs).
  split; [reflexivity|]. split; [exact Hcalls|]. split; [reflexivity|].
  apply (Hevs [OnRender fiber; Flush]). reflexivity.
Defined.

(** C8 as stated fails: [flushOutlines()] is called on the idle pipeline;
    whatever [getFiberId] is and whatever the environment does afterwards,
    this flush never finishes. *)
Lemma flush_of_nothing_does_not_terminate :
  ¬ ∃ (getFiberId : Fiber → Z) (evs : list PipelineEvent) (fc : FlushCycle),
      pipeline_admissible getFiberId
        (pipeline_step getFiberId empty_pipeline Flush) evs = true ∧
      flushes
        (pipeline_run getFiberId
           (pipeline_step getFiberId empty_pipeline Flush) evs) !! 0%nat
        = Some fc ∧
      phase (fc_resolver fc) = Completed.
Proof.
  intros (getFiberId & evs & fc & Hadm & Hfc & Hph).
  destruct (flush_of_nothing getFiberId empty_pipeline eq_refl)
    as (fc0 & Hi & HU & Hph0).
  destruct (stuck_flush getFiberId evs _ _ fc0 Hi HU Hph0 Hadm) as [Hfin _].
  assert (Some fc = Some fc0) as E by (rewrite <- Hfc; exact Hfin).
  injection E as ->. congruence.
Qed.

(** * Further properties *)

(** ** The aggregator *)

Section AggregatorFacts.

Variable getFiberId : Fiber → Z.

Lemma outlineFiber_keys_agree (fiber : FiberInfo) (st : Aggregator) :
  keys_agree st → keys_agree (outlineFiber fiber st).
Proof.
  intros [Hnd Hkeys]. unfold outlineFiber.
  destruct (negb (isCompositeFiber fiber)); [done|].
  destruct (truthy_name (fiber_name fiber)); [|done].
  destruct (blueprintMap st !! fiber_ref fiber) eqn:E; split; simpl.
  - done.
  - intros f. destruct (decide (fiber_ref fiber = f)) as [<-|Hne].
    + rewrite lookup_insert_eq, Hkeys, E. split; by eexists.
    + by rewrite lookup_insert_ne.
  - by apply set_add_nodup.
  - intros f. rewrite set_add_elem.
    destruct (decide (fiber_ref fiber = f)) as [<-|Hne].
    + rewrite lookup_insert_eq. split; [by eexists|by left].
    + rewrite lookup_insert_ne by done. rewrite <- Hkeys.
      split; [intros [?|?]; congruence || done|by right].
Qed.

Lemma empty_aggregator_keys_agree : keys_agree empty_aggregator.
Proof.
  split; simpl; [apply NoDup_nil_2|].
  intros f. rewrite lookup_empty. split.
  - intros Hf. by apply elem_of_nil in Hf.
  - by intros [? ?].
Qed.

Lemma pipeline_step_keys_agree (p : Pipeline) (ev : PipelineEvent) :
  keys_agree (aggregator p) →
  keys_agree (aggregator (pipeline_step getFiberId p ev)).
Proof.
  intros Hk. destruct ev as [fiber| |i entries]; simpl.
  - by apply outlineFiber_keys_agree.
  - done.
  - destruct (flushes p !! i) as [fc|]; [|done].
    pose proof (flush_notify_frame getFiberId entries p fc) as [_ Hagg].
    destruct (flush_notify getFiberId entries p fc) as [p' fc'].
    cbn [fst aggregator] in *. destruct Hagg as [->| ->]; [done|].
    rewrite (clear_blueprints_empty getFiberId) by (intros f; apply Hk).
    apply empty_aggregator_keys_agree.
Qed.

(** [blueprintMap] and [blueprintMapKeys] never drift apart: after any
    sequence of renders, flush starts and observer bursts, a fiber is in
    the key set exactly when it has a blueprint, and no key is listed
    twice. *)
Theorem blueprint_keys_agree (evs : list PipelineEvent) :
  keys_agree (aggregator (pipeline_run getFiberId empty_pipeline evs)).
Proof.
  unfold pipeline_run.
  assert (∀ p, keys_agree (aggregator p) →
               keys_agree (aggregator (fold_left (pipeline_step getFiberId) evs p)))
    as H.
  { induction evs as [|ev evs IH]; intros p Hp; [done|].
    simpl. by apply IH, pipeline_step_keys_agree. }
  apply H, empty_aggregator_keys_agree.
Qed.

Lemma outlineFiber_first_fields (fiber : FiberInfo) (st : Aggregator) :
  recordable fiber = true →
  blueprintMap st !! fiber_ref fiber = None →
  ∃ bp, blueprintMap (outlineFiber fiber st) !! fiber_ref fiber = Some bp ∧
        Some (bp_name bp) = truthy_name (fiber_name fiber) ∧
        bp_elements bp = getNearestHostFibers fiber.
Proof.
  unfold recordable, outlineFiber. intros H Hnone.
  apply andb_true_iff in H as [-> H]. simpl.
  apply bool_decide_eq_true in H as [name Hname]. rewrite Hname, Hnone.
  simpl. rewrite lookup_insert_eq. by eexists.
Qed.

Lemma outlineFiber_keeps_fields (fiber : FiberInfo) (st : Aggregator)
    (f : Fiber) (bp : BlueprintOutline) :
  blueprintMap st !! f = Some bp →
  ∃ bp', blueprintMap (outlineFiber fiber st) !! f = Some bp' ∧
         bp_name bp' = bp_name bp ∧ bp_elements bp' = bp_elements bp.
Proof.
  intros Hbp. destruct (decide (fiber_ref fiber = f)) as [<-|Hne].
  - unfold outlineFiber.
    destruct (negb (isCompositeFiber fiber)); [by eexists|].
    destruct (truthy_name (fiber_name fiber)); [|by eexists].
    rewrite Hbp. simpl. rewrite lookup_insert_eq. by eexists.
  - rewrite outlineFiber_other by done. by eexists.
Qed.

Lemma outlineFibers_keep_fields (fibers : list FiberInfo) (st : Aggregator)
    (f : Fiber) (bp : BlueprintOutline) :
  blueprintMap st !! f = Some bp →
  ∃ bp', blueprintMap (outlineFibers fibers st) !! f = Some bp' ∧
         bp_name bp' = bp_name bp ∧ bp_elements bp' = bp_elements bp.
Proof.
  revert st bp. induction fibers as [|fiber fibers IH]; intros st bp Hbp.
  - by exists bp.
  - destruct (outlineFiber_keeps_fields fiber st f bp Hbp) as (bp1 & H1 & Hn & He).
    destruct (IH _ _ H1) as (bp' & H' & Hn' & He').
    exists bp'. unfold outlineFibers in *. simpl. split; [done|].
    split; congruence.
Qed.

(** A blueprint keeps the name and the elements of the first call that
    created it: later renders of the same fiber within the cycle, whatever
    host nodes the fiber has by then, do not refresh them. *)
Theorem outlineFiber_keeps_first_elements
    (fibers : list FiberInfo) (st : Aggregator) (f : Fiber)
    (first : FiberInfo) :
  blueprintMap st !! f = None →
  head (calls_for f fibers) = Some first →
  ∃ bp, blueprintMap (outlineFibers fibers st) !! f = Some bp ∧
        Some (bp_name bp) = truthy_name (fiber_name first) ∧
        bp_elements bp = getNearestHostFibers first.
Proof.
  revert st. induction fibers as [|fiber fibers IH]; intros st Hnone Hfirst.
  - done.
  - unfold calls_for in *. rewrite filter_cons in *.
    destruct (decide (fiber_ref fiber = f ∧ recordable fiber = true))
      as [[<- Hrec]|Hno].
    + simpl in Hfirst. injection Hfirst as <-.
      destruct (outlineFiber_first_fields fiber st Hrec Hnone) as (bp1 & H1 & Hn & He).
      destruct (outlineFibers_keep_fields fibers _ _ _ H1) as (bp' & H' & Hn' & He').
      exists bp'. split; [done|]. split; congruence.
    + apply IH; [|done].
      destruct (decide (fiber_ref fiber = f)) as [Heq|Hne].
      * rewrite outlineFiber_skipped; [done|].
        destruct (recordable fiber); [|done]. by destruct Hno.
      * by rewrite outlineFiber_other.
Qed.

End AggregatorFacts.

(** A component renders with one host element and renders again with
    another one. *)
Lemma outlineFiber_keeps_first_elements_witness :
  let call (e : Element) :=
    {| fiber_ref := 1%positive; isCompositeFiber := true;
       fiber_type_string := None; getDisplayName := Some "App";
       getNearestHostFibers := [ElementNode e];
       didFiberCommit := true |} in
  let fibers := [call 7%positive; call 8%positive] in
  blueprintMap empty_aggregator !! 1%positive = None ∧
  head (calls_for 1%positive fibers) = Some (call 7%positive) ∧
  ∃ bp, blueprintMap (outlineFibers fibers empty_aggregator) !! 1%positive
          = Some bp ∧
        Some (bp_name bp) = Some "App" ∧
        bp_elements bp = [ElementNode 7%positive].
Proof.
  intros call fibers.
  split; [reflexivity|]. split; [reflexivity|].
  apply (outlineFiber_keeps_first_elements fibers empty_aggregator
           1%positive (call 7%positive)); reflexivity.
Defined.

(** ** Flush cycles, continued *)

Section FlushFacts.

Variable getFiberId : Fiber → Z.

(** A burst of the observer of a waiting flush, in full: the new entries
    are seen and their rectangles recorded. *)
Lemma flush_notify_detail (entries : list IntersectionObserverEntry)
    (p : Pipeline) (fc : FlushCycle) :
  resolver_inv (fc_resolver fc) →
  phase (fc_resolver fc) = Awaiting →
  event_ok (fc_resolver fc) (Notify entries) = true →
  ∃ new,
    partition_new entries (seenElements (fc_resolver fc))
      = (seenElements (fc_resolver fc) ++ (target <$> new), new) ∧
    (∀ entry, entry ∈ entries →
       target entry ∈ seenElements (fc_resolver fc) ++ (target <$> new)) ∧
    let fc' := (flush_notify getFiberId entries p fc).2 in
    seenElements (fc_resolver fc')
      = seenElements (fc_resolver fc) ++ (target <$> new) ∧
    uniqueElements (fc_resolver fc') = uniqueElements (fc_resolver fc) ∧
    rectsMap fc' = record_rects new (rectsMap fc).
Proof.
  intros Hinv Hph Hok.
  destruct (resolver_notify_spec _ entries Hinv Hok)
    as (new & Hpart & Hcov & Hinv1 & Hseen & HU & Hcases).
  exists new. split; [done|]. split; [done|].
  unfold flush_notify, flush_batch. rewrite Hph.
  destruct (resolver_step (fc_resolver fc) (Notify entries)) as [r out].
  cbn [fst snd] in *.
  destruct Hcases as [(_ & _ & -> & Hy)|[(_ & -> & -> & Ha)|(Hc & _)]];
    [| |congruence].
  - assert (event_ok r Next = true) as Hnext by (simpl; by rewrite Hy).
    destruct (resolver_next_spec r Hinv1 Hnext) as (_ & _ & Hs2 & HU2 & _ & _).
    by destruct (_ && _); cbn [snd fc_resolver rectsMap]; rewrite Hs2, HU2.
  - by destruct (_ && _); cbn [snd fc_resolver rectsMap].
Qed.

(** The state of a flush at a burst the environment may deliver to it. *)
Lemma flush_at_burst (p : Pipeline) (i : nat) (fc : FlushCycle)
    (entries : list IntersectionObserverEntry) :
  pipeline_inv p → flushes p !! i = Some fc →
  pipeline_event_ok p (Intersection i entries) = true →
  resolver_inv (fc_resolver fc) ∧
  phase (fc_resolver fc) = Awaiting ∧
  event_ok (fc_resolver fc) (Notify entries) = true.
Proof.
  intros Hinv Hi Hok. cbn [pipeline_event_ok] in Hok. rewrite Hi in Hok.
  pose proof (Forall_lookup_1 _ _ _ _ (inv_flushes _ Hinv) Hi) as [Hrinv Hph].
  split; [done|]. split; [|done].
  destruct Hph as [Hph|Hph]; [done|].
  simpl in Hok. apply andb_true_iff in Hok as [Hok _].
  apply andb_true_iff in Hok as [Hobs _].
  destruct (inv_observing _ Hrinv Hobs) as [Hd _].
  rewrite (inv_completed _ Hrinv Hph) in Hd. done.
Qed.

Lemma pipeline_step_flush_lookup (p : Pipeline) (i : nat) (fc : FlushCycle)
    (entries : list IntersectionObserverEntry) :
  flushes p !! i = Some fc →
  flushes (pipeline_step getFiberId p (Intersection i entries)) !! i
  = Some (flush_notify getFiberId entries p fc).2.
Proof.
  intros Hi. simpl. rewrite Hi.
  pose proof (flush_notify_frame getFiberId entries p fc) as [Hframe _].
  destruct (flush_notify getFiberId entries p fc) as [p' fc'].
  cbn [fst snd flushes] in *. rewrite Hframe.
  apply list_lookup_insert_eq. by eapply lookup_lt_Some.
Qed.


(** What a run keeps of a flush: its element set, what it has seen, and
    every element notified to it. *)
Lemma flush_tracks_notifications (evs : list PipelineEvent) (p : Pipeline)
    (i : nat) (fc : FlushCycle) :
  pipeline_inv p → flushes p !! i = Some fc →
  pipeline_admissible getFiberId p evs = true →
  ∃ fc',
    flushes (pipeline_run getFiberId p evs) !! i = Some fc' ∧
    uniqueElements (fc_resolver fc') = uniqueElements (fc_resolver fc) ∧
    (∀ e, e ∈ seenElements (fc_resolver fc) → e ∈ seenElements (fc_resolver fc')) ∧
    (∀ e, e ∈ notified_to i evs → e ∈ seenElements (fc_resolver fc')).
Proof.
  revert p fc. induction evs as [|ev evs IH]; intros p fc Hinv Hi Hadm.
  - exists fc. split; [done|]. split; [done|]. split; [done|].
    intros e He. by apply elem_of_nil in He.
  - cbn [pipeline_admissible] in Hadm.
    apply andb_true_iff in Hadm as [Hok Hadm].
    pose proof (pipeline_step_inv getFiberId p ev Hinv Hok) as Hinv'.
    unfold pipeline_run. cbn [fold_left].
    assert (∃ fc1,
      flushes (pipeline_step getFiberId p ev) !! i = Some fc1 ∧
      uniqueElements (fc_resolver fc1) = uniqueElements (fc_resolver fc) ∧
      (∀ e, e ∈ seenElements (fc_resolver fc) →
            e ∈ seenElements (fc_resolver fc1)) ∧
      (∀ e, e ∈ notified_to i [ev] → e ∈ seenElements (fc_resolver fc1)))
      as (fc1 & Hi1 & HU1 & Hs1 & Hn1).
    { destruct ev as [fiber| |j entries].
      - exists fc. split; [done|]. split; [done|]. split; [done|].
        intros e He. by apply elem_of_nil in He.
      - exists fc. split; [by apply lookup_app_l_Some|].
        split; [done|]. split; [done|].
        intros e He. by apply elem_of_nil in He.
      - destruct (decide (j = i)) as [->|Hne].
        + destruct (flush_at_burst p i fc entries Hinv Hi Hok)
            as (Hrinv & Hph & Hrok).
          destruct (flush_notify_detail entries p fc Hrinv Hph Hrok)
            as (new & _ & Hcov & Hs & HU & _).
          eexists. split; [by apply pipeline_step_flush_lookup|].
          split; [done|]. rewrite Hs. split.
          * intros e He. apply elem_of_app. by left.
          * intros e He. unfold notified_to in He. simpl in He.
            rewrite decide_True in He by done. rewrite app_nil_r in He.
            apply list_elem_of_fmap in He as (entry & -> & He).
            by apply Hcov.
        + exists fc. split.
          * simpl. destruct (flushes p !! j) as [fcj|] eqn:Hj; [|done].
            pose proof (flush_notify_frame getFiberId entries p fcj) as [Hframe _].
            destruct (flush_notify getFiberId entries p fcj) as [p1 fcj'].
            cbn [fst flushes] in *. rewrite Hframe.
            by rewrite list_lookup_insert_ne.
          * split; [done|]. split; [done|].
            intros e He. unfold notified_to in He. simpl in He.
            rewrite decide_False in He by done. by apply elem_of_nil in He. }
    destruct (IH _ fc1 Hinv' Hi1 Hadm) as (fc' & Hi' & HU' & Hs' & Hn').
    exists fc'. split; [done|]. split; [congruence|]. split; [by auto|].
    intros e He. unfold notified_to in He. rewrite bind_cons in He.
    apply elem_of_app in He as [He|He].
    + apply Hs', Hn1. unfold notified_to. rewrite bind_cons.
      apply elem_of_app. by left.
    + by apply Hn'.
Qed.

(** [flushOutlines] finishes once every element it asked about has
    reported.  A flush is started after any admissible run, with at least
    one DOM element among the elements of the blueprints; if in the
    admissible run that follows every one of these elements is notified to
    the observer of this flush at least once, the flush has finished (and
    by then has cleared the blueprints). *)
Theorem flush_completes_when_all_report (evs0 evs : list PipelineEvent) :
  pipeline_admissible getFiberId empty_pipeline (evs0 ++ Flush :: evs) = true →
  let p0 := pipeline_run getFiberId empty_pipeline evs0 in
  let i := length (flushes p0) in
  flush_elements (aggregator p0) ≠ [] →
  (∀ e, e ∈ flush_elements (aggregator p0) → e ∈ notified_to i evs) →
  ∃ fc,
    flushes (pipeline_run getFiberId empty_pipeline (evs0 ++ Flush :: evs)) !! i
      = Some fc ∧
    phase (fc_resolver fc) = Completed ∧
    done (fc_resolver fc) = true.
Proof.
  intros Hadm. rewrite pipeline_admissible_app in Hadm.
  apply andb_true_iff in Hadm as [Hadm0 Hadm].
  cbn [pipeline_admissible pipeline_event_ok andb] in Hadm.
  pose proof (pipeline_run_inv getFiberId evs0 _ empty_pipeline_inv Hadm0) as Hinv0.
  cbv zeta. set (p0 := pipeline_run getFiberId empty_pipeline evs0) in *.
  intros Hne Hall.
  assert (pipeline_inv (pipeline_step getFiberId p0 Flush)) as Hinv1
    by (by apply pipeline_step_inv).
  destruct (flush_begin_spec (aggregator p0)) as (_ & _ & HU).
  assert (flushes (pipeline_step getFiberId p0 Flush) !! length (flushes p0)
          = Some (flush_begin (aggregator p0))) as Hi.
  { simpl. rewrite lookup_app_r by done. by rewrite Nat.sub_diag. }
  destruct (flush_tracks_notifications evs _ _ _ Hinv1 Hi Hadm)
    as (fc & Hfc & HUfc & _ & Hnot).
  assert (pipeline_run getFiberId empty_pipeline (evs0 ++ Flush :: evs)
          = pipeline_run getFiberId (pipeline_step getFiberId p0 Flush) evs) as ->.
  { unfold pipeline_run. by rewrite fold_left_app. }
  exists fc. split; [done|].
  pose proof (pipeline_run_inv getFiberId evs _ Hinv1 Hadm) as Hinv.
  pose proof (Forall_lookup_1 _ _ _ _ (inv_flushes _ Hinv) Hfc) as [Hrinv Hph].
  destruct Hph as [Hph|Hph]; [|split; [done|by apply Hrinv]].
  exfalso. destruct (inv_awaiting _ Hrinv Hph) as [_ Hd].
  destruct (new_Set_spec (flush_elements (aggregator p0))) as [_ HeU].
  assert (uniqueElements (fc_resolver fc) ≠ []) as HUne.
  { rewrite HUfc, HU. intros E.
    destruct (flush_elements (aggregator p0)) as [|e l] eqn:El; [done|].
    assert (e ∈ new_Set (e :: l)) as He by (apply HeU; by left).
    rewrite E in He. by apply elem_of_nil in He. }
  pose proof (inv_not_done _ Hrinv Hd HUne) as Hlt.
  assert (length (uniqueElements (fc_resolver fc))
          ≤ length (seenElements (fc_resolver fc)))%nat; [|lia].
  apply nodup_subset_length; [by destruct Hrinv|].
  intros e He. apply Hnot, Hall, HeU. by rewrite <- HU, <- HUfc.
Qed.

(** A flush whose blueprints have no DOM element among their nodes never
    finishes: its resolver observes nothing, no burst can be delivered to
    it, and under every admissible continuation it is still waiting, with
    the clearing loop not reached. *)
Theorem flush_without_elements_waits_forever (p : Pipeline) :
  flush_elements (aggregator p) = [] →
  let i := length (flushes p) in
  let p1 := pipeline_step getFiberId p Flush in
  ∀ evs,
    pipeline_admissible getFiberId p1 evs = true →
    Forall (λ ev, ∀ entries, ev ≠ Intersection i entries) evs ∧
    ∃ fc,
      flushes (pipeline_run getFiberId p1 evs) !! i = Some fc ∧
      phase (fc_resolver fc) = Awaiting.
Proof.
  intros Hel. cbv zeta. intros evs Hadm.
  destruct (flush_begin_spec (aggregator p)) as (_ & Hph & HU).
  rewrite Hel in HU.
  assert (flushes (pipeline_step getFiberId p Flush) !! length (flushes p)
          = Some (flush_begin (aggregator p))) as Hi.
  { simpl. rewrite lookup_app_r by done. by rewrite Nat.sub_diag. }
  destruct (stuck_flush getFiberId evs _ _ _ Hi HU Hph Hadm) as [Hfin Hall].
  split; [done|]. by eexists.
Qed.

End FlushFacts.


(** A component with two elements: they report in two bursts. *)
Lemma flush_completes_when_all_report_witness :
  let getFiberId (f : Fiber) := Z.pos f in
  let fiber :=
    {| fiber_ref := 1%positive; isCompositeFiber := true;
       fiber_type_string := None; getDisplayName := Some "App";
       getNearestHostFibers := [ElementNode 7%positive; ElementNode 8%positive];
       didFiberCommit := true |} in
  let entry e :=
    {| target := e; isIntersecting := true;
       intersectionRect := new_DOMRect 0 0 10 10 |} in
  let evs0 := [OnRender fiber] in
  let evs := [Intersection 0 [entry 7%positive]; OnRender fiber;
              Intersection 0 [entry 8%positive]] in
  pipeline_admissible getFiberId empty_pipeline (evs0 ++ Flush :: evs) = true ∧
  flush_elements (aggregator (pipeline_run getFiberId empty_pipeline evs0))
    = [7%positive; 8%positive] ∧
  ∃ fc,
    flushes (pipeline_run getFiberId empty_pipeline (evs0 ++ Flush :: evs))
      !! 0%nat = Some fc ∧
    phase (fc_resolver fc) = Completed ∧
    done (fc_resolver fc) = true.
Proof.
  intros getFiberId fiber entry evs0 evs.
  assert (pipeline_admissible getFiberId empty_pipeline
            (evs0 ++ Flush :: evs) = true) as H1 by reflexivity.
  split; [done|]. split; [reflexivity|].
  apply (flush_completes_when_all_report getFiberId evs0 evs H1).
  - done.
  - intros e He. vm_compute in He. vm_compute.
    apply elem_of_cons in He as [->|He]; [by left|].
    apply list_elem_of_singleton in He as ->. right. by left.
Defined.

(** A component whose only host node is not a DOM element renders; a
    flush is started and another render follows. *)
Lemma flush_without_elements_waits_forever_witness :
  let getFiberId (f : Fiber) := Z.pos f in
  let fiber :=
    {| fiber_ref := 1%positive; isCompositeFiber := true;
       fiber_type_string := None; getDisplayName := Some "App";
       getNearestHostFibers := [OtherNode];
       didFiberCommit := true |} in
  let p := pipeline_run getFiberId empty_pipeline [OnRender fiber] in
  let p1 := pipeline_step getFiberId p Flush in
  blueprintMapKeys (aggregator p) = [1%positive] ∧
  flush_elements (aggregator p) = [] ∧
  pipeline_admissible getFiberId p1 [OnRender fiber] = true ∧
  ∃ fc,
    flushes (pipeline_run getFiberId p1 [OnRender fiber]) !! 0%nat = Some fc ∧
    phase (fc_resolver fc) = Awaiting.
Proof.
  intros getFiberId fiber p p1.
  split; [reflexivity|]. split; [reflexivity|]. split; [reflexivity|].
  apply (flush_without_elements_waits_forever getFiberId p eq_refl
           [OnRender fiber]).
  reflexivity.
Defined.

(** ** What reaches the renderer *)

Section RenderCallFacts.

Variable getFiberId : Fiber → Z.


(** The outline built for one key. *)
Lemma collect_outlines_elem (st : Aggregator) (m : gmap Element DOMRect)
    (o : OutlineData) :
  o ∈ collect_outlines getFiberId st m →
  ∃ fiber blueprint,
    fiber ∈ blueprintMapKeys st ∧
    blueprintMap st !! fiber = Some blueprint ∧
    od_id o = getFiberId fiber ∧
    od_name o = bp_name blueprint ∧
    od_count o = bp_count blueprint ∧
    od_didCommit o = bp_didCommit blueprint.
Proof.
  unfold collect_outlines. intros Ho.
  apply list_elem_of_omap in Ho as (fiber & Hf & Ho).
  destruct (blueprintMap st !! fiber) as [blueprint|] eqn:E; [|done].
  simpl in Ho. case_bool_decide; [done|].
  destruct (mergeRects _) as [rect|]; [|done].
  simpl in Ho. injection Ho as <-. by exists fiber, blueprint.
Qed.


Lemma outlineFiber_counted (fiber : FiberInfo) (st : Aggregator) :
  blueprints_counted st → blueprints_counted (outlineFiber fiber st).
Proof.
  intros Hst f bp. unfold outlineFiber.
  destruct (negb (isCompositeFiber fiber)); [apply Hst|].
  destruct (truthy_name (fiber_name fiber)); [|apply Hst].
  destruct (blueprintMap st !! fiber_ref fiber) as [old|] eqn:E; simpl.
  - destruct (decide (fiber_ref fiber = f)) as [<-|Hne].
    + rewrite lookup_insert_eq. intros [= <-]. simpl.
      destruct (Hst _ _ E). split; [lia|done].
    + rewrite lookup_insert_ne by done. apply Hst.
  - destruct (decide (fiber_ref fiber = f)) as [<-|Hne].
    + rewrite lookup_insert_eq. intros [= <-]. simpl.
      split; [lia|]. destruct (didFiberCommit fiber); auto.
    + rewrite lookup_insert_ne by done. apply Hst.
Qed.

Lemma clear_blueprints_counted (st : Aggregator) :
  blueprints_counted st → blueprints_counted (clear_blueprints st).
Proof.
  intros Hst f bp. unfold clear_blueprints.
  destruct (clear_loop_spec getFiberId (blueprintMapKeys st) st) as [Hm _].
  rewrite Hm. case_bool_decide; [done|apply Hst].
Qed.

(** What a burst of one flush adds to the render calls. *)
Lemma flush_notify_calls (entries : list IntersectionObserverEntry)
    (p : Pipeline) (fc : FlushCycle) :
  let p' := (flush_notify getFiberId entries p fc).1 in
  renderCalls p' = renderCalls p ∨
  ∃ m, collect_outlines getFiberId (aggregator p) m ≠ [] ∧
       renderCalls p'
       = renderCalls p ++ [collect_outlines getFiberId (aggregator p) m].
Proof.
  unfold flush_notify, flush_batch.
  destruct (resolver_step (fc_resolver fc) (Notify entries)) as [r [batch|]].
  - destruct (_ && _); cbn [fst renderCalls rectsMap];
      (case_bool_decide as Hd; [by left|right; by eexists]).
  - destruct (_ && _); by left.
Qed.

Lemma pipeline_step_calls (p : Pipeline) (ev : PipelineEvent) :
  blueprints_counted (aggregator p) →
  Forall (λ call, call ≠ [] ∧ Forall outline_counted call) (renderCalls p) →
  let p' := pipeline_step getFiberId p ev in
  blueprints_counted (aggregator p') ∧
  Forall (λ call, call ≠ [] ∧ Forall outline_counted call) (renderCalls p').
Proof.
  intros Hst Hcalls. destruct ev as [fiber| |i entries]; cbv zeta; simpl.
  - split; [by apply outlineFiber_counted|done].
  - done.
  - destruct (flushes p !! i) as [fc|]; [|done].
    pose proof (flush_notify_frame getFiberId entries p fc) as [_ Hagg].
    pose proof (flush_notify_calls entries p fc) as Hrc.
    destruct (flush_notify getFiberId entries p fc) as [p' fc'].
    cbn [fst aggregator renderCalls] in *. split.
    + destruct Hagg as [->| ->]; [done|by apply clear_blueprints_counted].
    + destruct Hrc as [->|(m & Hne & ->)]; [done|].
      apply Forall_app. split; [done|]. apply Forall_singleton.
      split; [done|]. apply Forall_forall. intros o Ho.
      apply collect_outlines_elem in Ho
        as (fiber & blueprint & _ & Hbp & _ & _ & Hc & Hd).
      unfold outline_counted. rewrite Hc, Hd. by eapply Hst.
Qed.

(** Whatever renders, flush starts and observer bursts occur, every call
    of [renderOutlines] made by [flushOutlines] passes at least one
    outline, and every outline passed has a count of at least 1 and a
    commit flag of 0 or 1. *)
Theorem render_calls_well_formed (evs : list PipelineEvent) :
  Forall (λ call, call ≠ [] ∧ Forall outline_counted call)
    (renderCalls (pipeline_run getFiberId empty_pipeline evs)).
Proof.
  unfold pipeline_run.
  assert (∀ p,
    blueprints_counted (aggregator p) →
    Forall (λ call, call ≠ [] ∧ Forall outline_counted call) (renderCalls p) →
    Forall (λ call, call ≠ [] ∧ Forall outline_counted call)
      (renderCalls (fold_left (pipeline_step getFiberId) evs p))) as H.
  { induction evs as [|ev evs IH]; intros p Hst Hcalls; [done|].
    destruct (pipeline_step_calls p ev Hst Hcalls). cbn [fold_left].
    by apply IH. }
  apply H; [|constructor].
  intros f bp Hf. simpl in Hf. by rewrite lookup_empty in Hf.
Qed.

Lemma record_rects_lookup (entries : list IntersectionObserverEntry)
    (m : gmap Element DOMRect) (e : Element) (r : DOMRect) :
  record_rects entries m !! e = Some r →
  m !! e = Some r ∨
  ∃ entry, entry ∈ entries ∧ target entry = e ∧ intersectionRect entry = r ∧
           isIntersecting entry = true ∧
           rect_width r ≠ 0 ∧ rect_height r ≠ 0.
Proof.
  unfold record_rects. revert m.
  induction entries as [|entry entries IH]; intros m; [by left|].
  cbn [fold_left]. intros H. apply IH in H as [H|(en & Hin & H)].
  - destruct (isIntersecting entry) eqn:Hi; [|by left]. simpl in H.
    destruct (rect_width (intersectionRect entry) =? 0) eqn:Hw; [by left|].
    destruct (rect_height (intersectionRect entry) =? 0) eqn:Hh; [by left|].
    simpl in H. destruct (decide (target entry = e)) as [<-|Hne].
    + rewrite lookup_insert_eq in H. injection H as <-. right.
      exists entry. apply Z.eqb_neq in Hw, Hh. split; [by left|done].
    + rewrite lookup_insert_ne in H by done. by left.
  - right. exists en. split; [by right|done].
Qed.

Lemma flush_notify_rects (entries : list IntersectionObserverEntry)
    (p : Pipeline) (fc : FlushCycle) :
  let fc' := (flush_notify getFiberId entries p fc).2 in
  rectsMap fc' = rectsMap fc ∨
  ∃ batch, rectsMap fc' = record_rects batch (rectsMap fc).
Proof.
  unfold flush_notify, flush_batch.
  destruct (resolver_step (fc_resolver fc) (Notify entries)) as [r [batch|]];
    destruct (_ && _); cbn [snd rectsMap]; (by left) || (right; by eexists).
Qed.

(** The rectangle map of a flush holds no rectangle of zero width or zero
    height: entries that do not intersect or have an empty rectangle are
    never recorded. *)
Theorem rectsMap_without_empty_rects (evs : list PipelineEvent)
    (i : nat) (fc : FlushCycle) (e : Element) (r : DOMRect) :
  flushes (pipeline_run getFiberId empty_pipeline evs) !! i = Some fc →
  rectsMap fc !! e = Some r →
  rect_width r ≠ 0 ∧ rect_height r ≠ 0.
Proof.
  unfold pipeline_run.
  assert (∀ p,
    Forall (λ fc, ∀ e r, rectsMap fc !! e = Some r →
                         rect_width r ≠ 0 ∧ rect_height r ≠ 0) (flushes p) →
    Forall (λ fc, ∀ e r, rectsMap fc !! e = Some r →
                         rect_width r ≠ 0 ∧ rect_height r ≠ 0)
      (flushes (fold_left (pipeline_step getFiberId) evs p))) as H.
  { induction evs as [|ev evs IH]; intros p Hp; [done|].
    cbn [fold_left]. apply IH.
    destruct ev as [fiber| |j entries]; simpl.
    - done.
    - apply Forall_app. split; [done|]. apply Forall_singleton.
      intros e' r' Hl. simpl in Hl. by rewrite lookup_empty in Hl.
    - destruct (flushes p !! j) as [fcj|] eqn:Hj; [|done].
      pose proof (flush_notify_frame getFiberId entries p fcj) as [Hframe _].
      pose proof (flush_notify_rects entries p fcj) as Hrects.
      destruct (flush_notify getFiberId entries p fcj) as [p' fcj'].
      cbn [fst snd flushes] in *. rewrite Hframe.
      apply Forall_insert; [done|].
      pose proof (Forall_lookup_1 _ _ _ _ Hp Hj) as Hold.
      intros e' r' Hl. destruct Hrects as [Heq|[batch Heq]]; rewrite Heq in Hl.
      + by eapply Hold.
      + apply record_rects_lookup in Hl as [Hl|(en & _ & _ & _ & _ & Hnz)];
          [by eapply Hold|done]. }
  intros Hfc Hr.
  specialize (H empty_pipeline (Forall_nil_2 _)).
  by apply (Forall_lookup_1 _ _ _ _ H Hfc e r).
Qed.

End RenderCallFacts.

(** ** The rect merger, continued *)

Section MergeRectsFacts.

Lemma minimum_unique (a b : Z) (l k : list Z) :
  is_minimum a l → is_minimum b k → (∀ v, v ∈ l ↔ v ∈ k) → a = b.
Proof.
  intros [Ha Hla] [Hb Hkb] Hlk.
  assert (a ≤ b) by (apply Hla, Hlk, Hb).
  assert (b ≤ a) by (apply Hkb, Hlk, Ha). lia.
Qed.

Lemma maximum_unique (a b : Z) (l k : list Z) :
  is_maximum a l → is_maximum b k → (∀ v, v ∈ l ↔ v ∈ k) → a = b.
Proof.
  intros [Ha Hla] [Hb Hkb] Hlk.
  assert (b ≤ a) by (apply Hla, Hlk, Hb).
  assert (a ≤ b) by (apply Hkb, Hlk, Ha). lia.
Qed.

Lemma mergeRects_two_or_more (r r2 : DOMRect) (rs : list DOMRect) :
  ∃ x0 y0 x1 y1,
    mergeRects (r :: r2 :: rs)
      = Some (new_DOMRect x0 y0 (f64_sub x1 x0) (f64_sub y1 y0)) ∧
    is_minimum x0 (rect_x <$> r :: r2 :: rs) ∧
    is_minimum y0 (rect_y <$> r :: r2 :: rs) ∧
    is_maximum x1 (rect_right_f64 <$> r :: r2 :: rs) ∧
    is_maximum y1 (rect_bottom_f64 <$> r :: r2 :: rs).
Proof.
  destruct (mergeRects_loop_bounds r (r2 :: rs))
    as (x0 & y0 & x1 & y1 & Hloop & H).
  exists x0, y0, x1, y1. split; [|done].
  unfold mergeRects. rewrite decide_False by (simpl; lia). by rewrite Hloop.
Qed.

Lemma fmap_perm_elem {A} (f : A → Z) (l k : list A) :
  l ≡ₚ k → ∀ v, v ∈ f <$> l ↔ v ∈ f <$> k.
Proof. intros Hp v. by rewrite Hp. Qed.

(** The merged rectangle does not depend on the order of the
    rectangles. *)
Theorem mergeRects_order_independent (rects1 rects2 : list DOMRect) :
  rects1 ≡ₚ rects2 → mergeRects rects1 = mergeRects rects2.
Proof.
  intros Hp. pose proof (Permutation_length Hp) as Hlen.
  destruct rects1 as [|r [|r2 rs]].
  - apply Permutation_nil_l in Hp. by subst.
  - apply Permutation_singleton_l in Hp. by subst.
  - destruct rects2 as [|q [|q2 qs]]; [done|done|].
    destruct (mergeRects_two_or_more r r2 rs)
      as (x0 & y0 & x1 & y1 & -> & Hx0 & Hy0 & Hx1 & Hy1).
    destruct (mergeRects_two_or_more q q2 qs)
      as (a0 & b0 & a1 & b1 & -> & Ha0 & Hb0 & Ha1 & Hb1).
    rewrite (minimum_unique _ _ _ _ Hx0 Ha0 (fmap_perm_elem _ _ _ Hp)).
    rewrite (minimum_unique _ _ _ _ Hy0 Hb0 (fmap_perm_elem _ _ _ Hp)).
    rewrite (maximum_unique _ _ _ _ Hx1 Ha1 (fmap_perm_elem _ _ _ Hp)).
    rewrite (maximum_unique _ _ _ _ Hy1 Hb1 (fmap_perm_elem _ _ _ Hp)).
    done.
Qed.

(** [mergeRects] returns [undefined] for the empty list and for no other
    input. *)
Theorem mergeRects_undefined_iff_empty (rects : list DOMRect) :
  mergeRects rects = None ↔ rects = [].
Proof.
  split; [|by intros ->].
  destruct rects as [|r [|r2 rs]]; [done|done|].
  destruct (mergeRects_two_or_more r r2 rs) as (? & ? & ? & ? & -> & _). done.
Qed.

End MergeRectsFacts.

(** Two rectangles, in both orders. *)
Lemma mergeRects_order_independent_witness :
  [new_DOMRect 0 0 10 10; new_DOMRect 20 20 10 10]
    ≡ₚ [new_DOMRect 20 20 10 10; new_DOMRect 0 0 10 10] ∧
  mergeRects [new_DOMRect 0 0 10 10; new_DOMRect 20 20 10 10]
  = mergeRects [new_DOMRect 20 20 10 10; new_DOMRect 0 0 10 10].
Proof.
  assert ([new_DOMRect 0 0 10 10; new_DOMRect 20 20 10 10]
            ≡ₚ [new_DOMRect 20 20 10 10; new_DOMRect 0 0 10 10]) as H
    by apply perm_swap.
  split; [exact H|]. exact (mergeRects_order_independent _ _ H).
Defined.

(** ** The merge step of the direct renderer, continued *)

Section UpdateOutlinesFacts.

Lemma updateOutline_dom (m : gmap string ActiveOutline) (o : OutlineData) :
  dom (updateOutline m o) = dom m ∪ {[String_of (od_id o)]}.
Proof.
  unfold updateOutline. simpl.
  destruct (m !! String_of (od_id o)); rewrite dom_insert_L; set_solver.
Qed.

(** [updateOutlines] never drops an entry: after it the active outlines
    are those that were there before and one for each id that came in,
    under the string form of the id. *)
Theorem updateOutlines_dom (m : gmap string ActiveOutline)
    (outlines : list OutlineData) :
  dom (updateOutlines m outlines)
  = dom m ∪ list_to_set ((λ o, String_of (od_id o)) <$> outlines).
Proof.
  unfold updateOutlines. revert m.
  induction outlines as [|o outlines IH]; intros m.
  - simpl. set_solver.
  - cbn [fold_left]. rewrite IH, updateOutline_dom, fmap_cons.
    cbn [list_to_set]. set_solver.
Qed.

(** An outline that arrives [k + 1] times in one call, on a map that has
    no entry for its id, ends with the count of its first arrival plus
    [k]: the counts of the later arrivals are not added. *)
Theorem updateOutlines_count_of_repeats (m : gmap string ActiveOutline)
    (o : OutlineData) (later : list OutlineData) :
  m !! String_of (od_id o) = None →
  Forall (λ o', od_id o' = od_id o) later →
  ao_count <$> updateOutlines m (o :: later) !! String_of (od_id o)
  = Some (od_count o + Z.of_nat (length later)).
Proof.
  intros Hnone Hlater. unfold updateOutlines. cbn [fold_left].
  unfold updateOutline at 2. simpl. rewrite Hnone.
  assert (∀ m' c,
    ao_count <$> m' !! String_of (od_id o) = Some c →
    ao_count <$> fold_left updateOutline later m' !! String_of (od_id o)
    = Some (c + Z.of_nat (length later))) as H.
  { induction Hlater as [|o' later Hid _ IH]; intros m' c Hc.
    - simpl. rewrite Hc. f_equal. lia.
    - cbn [fold_left]. rewrite (IH _ (c + 1)).
      + f_equal. simpl length. lia.
      + unfold updateOutline. simpl. rewrite Hid.
        destruct (m' !! String_of (od_id o)) as [existing|]; [|done].
        rewrite lookup_insert_eq. simpl in *. congruence. }
  apply H. by rewrite lookup_insert_eq.
Qed.

End UpdateOutlinesFacts.

(** An outline with count 5 arrives three times. *)
Lemma updateOutlines_count_of_repeats_witness :
  let o := {| od_id := 5; od_name := "App"; od_count := 5;
              od_x := 0; od_y := 0; od_width := 10; od_height := 10;
              od_didCommit := 1 |} in
  (∅ : gmap string ActiveOutline) !! String_of (od_id o) = None ∧
  Forall (λ o', od_id o' = od_id o) [o; o] ∧
  ao_count <$> updateOutlines ∅ [o; o; o] !! String_of (od_id o) = Some 7.
Proof.
  intros o.
  assert (Forall (λ o', od_id o' = od_id o) [o; o]) as H
    by (repeat constructor).
  split; [reflexivity|]. split; [exact H|].
  exact (updateOutlines_count_of_repeats ∅ o [o; o] eq_refl H).
Defined.

(** An element reports with a rectangle of 50 by 50. *)
Lemma rectsMap_without_empty_rects_witness :
  let getFiberId (f : Fiber) := Z.pos f in
  let fiber :=
    {| fiber_ref := 1%positive; isCompositeFiber := true;
       fiber_type_string := None; getDisplayName := Some "App";
       getNearestHostFibers := [ElementNode 7%positive; ElementNode 8%positive];
       didFiberCommit := true |} in
  let evs :=
    [OnRender fiber; Flush;
     Intersection 0
       [{| target := 7%positive; isIntersecting := true;
           intersectionRect := new_DOMRect 10 10 50 50 |};
        {| target := 8%positive; isIntersecting := true;
           intersectionRect := new_DOMRect 10 10 0 50 |}]] in
  ∃ fc,
    flushes (pipeline_run getFiberId empty_pipeline evs) !! 0%nat = Some fc ∧
    rectsMap fc !! 7%positive = Some (new_DOMRect 10 10 50 50) ∧
    rectsMap fc !! 8%positive = None ∧
    50 ≠ 0.
Proof.
  intros getFiberId fiber evs.
  destruct (flushes (pipeline_run getFiberId empty_pipeline evs) !! 0%nat)
    as [fc|] eqn:Hfc; [|by vm_compute in Hfc].
  exists fc.
  assert (rectsMap fc !! 7%positive = Some (new_DOMRect 10 10 50 50)) as H7.
  { vm_compute in Hfc. by injection Hfc as <-. }
  split; [done|]. split; [done|]. split.
  - vm_compute in Hfc. by injection Hfc as <-.
  - apply (rectsMap_without_empty_rects getFiberId evs 0 fc 7%positive
             (new_DOMRect 10 10 50 50) Hfc H7).
Defined.

(** ** The batched visibility resolver, continued *)

Section ResolverFacts.

(** The sequence is single-use: once the resolver has completed, no
    request and no burst changes it or makes it produce a batch. *)
Theorem resolver_completed_is_final (elements : list Element)
    (evs more : list ResolverEvent) :
  admissible (getBatchedRectMap elements) evs = true →
  let r := (resolver_run (getBatchedRectMap elements) evs).1 in
  phase r = Completed →
  resolver_run r more = (r, []).
Proof.
  intros Hadm.
  destruct (resolver_run_spec evs _ (getBatchedRectMap_inv elements) Hadm)
    as (Hinv & _).
  cbv zeta. set (r := (resolver_run (getBatchedRectMap elements) evs).1) in *.
  intros Hph.
  assert (observing r = false) as Hobs.
  { destruct (observing r) eqn:Ho; [|done].
    destruct (inv_observing _ Hinv Ho) as [Hd _].
    by rewrite (inv_completed _ Hinv Hph) in Hd. }
  assert (∀ ev, resolver_step r ev = (r, None)) as Hstep.
  { intros [|entries]; simpl; [by rewrite Hph|by rewrite Hobs]. }
  induction more as [|ev more IH]; [done|].
  rewrite resolver_run_cons, Hstep. cbn [fst snd]. by rewrite IH.
Qed.

End ResolverFacts.

(** One element reports and the consumer is told the sequence is over;
    it asks again and a stray burst arrives. *)
Lemma resolver_completed_is_final_witness :
  let entry :=
    {| target := 1%positive; isIntersecting := true;
       intersectionRect := new_DOMRect 0 0 10 10 |} in
  let evs := [Next; Notify [entry]; Next] in
  let r := (resolver_run (getBatchedRectMap [1%positive]) evs).1 in
  admissible (getBatchedRectMap [1%positive]) evs = true ∧
  phase r = Completed ∧
  resolver_run r [Next; Notify [entry]; Next] = (r, []).
Proof.
  intros entry evs r.
  assert (admissible (getBatchedRectMap [1%positive]) evs = true) as H1
    by reflexivity.
  split; [done|]. split; [reflexivity|].
  exact (resolver_completed_is_final [1%positive] evs
           [Next; Notify [entry]; Next] H1 eq_refl).
Defined.

(** ** The renderers, continued *)

Section RendererFacts.

Variable drawCanvas :
  gmap string ActiveOutline → gmap string ActiveOutline * bool.
Variable updateScroll :
  gmap string ActiveOutline → Z → Z → gmap string ActiveOutline.

Lemma frames_in_step_preserved (r : CanvasOutlineRenderer) (ev : CanvasEvent) :
  no_resize ev = true → is_Some (c_ctx r) → frames_in_step r →
  is_Some (c_ctx (canvas_step drawCanvas updateScroll r ev)) ∧
  frames_in_step (canvas_step drawCanvas updateScroll r ev).
Proof.
  intros Hev [s Hctx] Hfr. unfold frames_in_step in *.
  destruct ev as [[outlines|size|dx dy|]| |].
  - simpl. unfold canvas_renderOutlines. simpl.
    destruct Hfr as [[Hid Hq]|(h & Hid & Hq)]; rewrite Hid; simpl.
    + rewrite Hctx, Hq. split; [by eexists|]. right. by eexists.
    + rewrite Hctx, Hid, Hq. split; [by eexists|]. right. by eexists.
  - done.
  - simpl. rewrite Hctx. split; [by eexists|done].
  - simpl. unfold canvas_dispose. rewrite Hctx. split; [by eexists|done].
  - simpl. destruct Hfr as [[Hid Hq]|(h & Hid & Hq)]; rewrite Hq.
    + rewrite Hctx. split; [by eexists|]. by left.
    + unfold canvas_draw. simpl. rewrite Hctx.
      destruct (drawCanvas (c_activeOutlines r)) as [m [|]]; simpl.
      * split; [by eexists|]. right. by eexists.
      * split; [by eexists|]. by left.
  - done.
Qed.

(** As long as the surface is not resized, the direct renderer has at
    most one animation frame requested, and [animationFrameId] is set
    exactly while that request is pending: [renderOutlines] does not
    request a second frame, and a draw that has nothing left to animate
    clears the id. *)
Theorem canvas_one_frame_at_a_time (evs : list CanvasEvent)
    (size : Size) (dpr : Z) :
  forallb no_resize evs = true →
  let r := canvas_run drawCanvas updateScroll
             (new_CanvasOutlineRenderer true size dpr) evs in
  (length (c_frameRequests r) ≤ 1)%nat ∧
  (c_animationFrameId r = None ↔ c_frameRequests r = []).
Proof.
  intros Hevs. cbv zeta.
  assert (∀ r, is_Some (c_ctx r) → frames_in_step r →
               frames_in_step (canvas_run drawCanvas updateScroll r evs)) as H.
  { induction evs as [|ev evs IH]; intros r Hctx Hfr; [done|].
    simpl in Hevs. apply andb_true_iff in Hevs as [Hev Hevs].
    destruct (frames_in_step_preserved r ev Hev Hctx Hfr) as [Hctx' Hfr'].
    unfold canvas_run. cbn [fold_left]. by apply IH. }
  destruct (H (new_CanvasOutlineRenderer true size dpr)) as [[-> ->]|(h & -> & ->)].
  - by eexists.
  - by left.
  - simpl. split; [lia|done].
  - simpl. split; [lia|]. split; done.
Qed.

Lemma canvas_step_without_context (r : CanvasOutlineRenderer) (ev : CanvasEvent) :
  c_ctx r = None →
  c_ctx (canvas_step drawCanvas updateScroll r ev) = None ∧
  c_drawn (canvas_step drawCanvas updateScroll r ev) = c_drawn r.
Proof.
  intros Hctx. destruct ev as [[outlines|size|dx dy|]| |]; simpl.
  - unfold canvas_renderOutlines. simpl.
    by destruct (c_animationFrameId r).
  - done.
  - done.
  - done.
  - destruct (c_frameRequests r); [done|].
    unfold canvas_draw. simpl. by rewrite Hctx.
  - unfold canvas_resize_timeout. destruct (c_isResizeScheduled r); [|done].
    unfold canvas_draw. simpl. rewrite Hctx. simpl. by rewrite ?Hctx.
Qed.

(** A direct renderer whose canvas gave it no 2d context never calls
    [drawCanvas], whatever calls, frames and timers it gets. *)
Theorem canvas_without_context_never_draws (evs : list CanvasEvent)
    (size : Size) (dpr : Z) :
  c_drawn (canvas_run drawCanvas updateScroll
             (new_CanvasOutlineRenderer false size dpr) evs) = [].
Proof.
  assert (∀ r, c_ctx r = None →
               c_drawn (canvas_run drawCanvas updateScroll r evs) = c_drawn r)
    as H.
  { induction evs as [|ev evs IH]; intros r Hctx; [done|].
    destruct (canvas_step_without_context r ev Hctx) as [Hctx' Hd].
    unfold canvas_run in *. cbn [fold_left]. by rewrite IH. }
  by rewrite H.
Qed.

Lemma canvas_resizes (sizes : list Size) (last_size : Size)
    (r : CanvasOutlineRenderer) :
  last sizes = Some last_size →
  canvas_run drawCanvas updateScroll r ((CanvasCall ∘ Resize) <$> sizes)
  = canvas_set_resize last_size true r.
Proof.
  revert r. induction sizes as [|size sizes IH]; intros r Hl; [done|].
  unfold canvas_run in *. rewrite fmap_cons. cbn [fold_left].
  destruct sizes as [|size2 sizes].
  - simpl in *. by injection Hl as ->.
  - rewrite IH by done. done.
Qed.

(** The direct renderer coalesces resizes to the latest size: after any
    number of [resize] calls and the one timer they set, the backing
    store of the canvas has the last size given, scaled by the pixel
    ratio, the surface has been redrawn once if there is a context, and a
    new [resize] will set a new timer. *)
Theorem canvas_resize_coalesces (sizes : list Size) (last_size : Size)
    (r : CanvasOutlineRenderer) :
  last sizes = Some last_size →
  let r' := canvas_run drawCanvas updateScroll r
              (((CanvasCall ∘ Resize) <$> sizes) ++ [ResizeTimeout]) in
  canvas_width (c_canvas r') = sz_width last_size * c_dpr r ∧
  canvas_height (c_canvas r') = sz_height last_size * c_dpr r ∧
  c_size r' = last_size ∧
  c_isResizeScheduled r' = false ∧
  c_drawn r' = c_drawn r
               ++ match c_ctx r with
                  | Some _ => [c_activeOutlines r]
                  | None => []
                  end.
Proof.
  intros Hl. cbv zeta. unfold canvas_run. rewrite fold_left_app.
  fold (canvas_run drawCanvas updateScroll r ((CanvasCall ∘ Resize) <$> sizes)).
  rewrite (canvas_resizes sizes last_size r Hl).
  cbn [fold_left canvas_step]. unfold canvas_resize_timeout, canvas_draw.
  simpl. destruct (c_ctx r) as [s|]; simpl.
  - destruct (drawCanvas (c_activeOutlines r)) as [m [|]]; simpl; done.
  - by rewrite app_nil_r.
Qed.

End RendererFacts.

Section WorkerFacts.

Lemma worker_resizes (sizes : list Size) (last_size : Size)
    (r : WorkerOutlineRenderer) :
  last sizes = Some last_size →
  worker_run r ((WorkerCall ∘ Resize) <$> sizes)
  = worker_set_resize last_size true r.
Proof.
  revert r. induction sizes as [|size sizes IH]; intros r Hl; [done|].
  unfold worker_run in *. rewrite fmap_cons. cbn [fold_left].
  destruct sizes as [|size2 sizes].
  - simpl in *. by injection Hl as ->.
  - rewrite IH by done. done.
Qed.

(** The offloaded renderer coalesces resizes to the latest size: after
    any number of [resize] calls and the one timer they set, a running
    worker has received exactly one [resize] message, carrying the last
    size given, and the canvas element has that size as its style. *)
Theorem worker_resize_coalesces (sizes : list Size) (last_size : Size)
    (r : WorkerOutlineRenderer) :
  w_terminated r = false →
  last sizes = Some last_size →
  let r' := worker_run r (((WorkerCall ∘ Resize) <$> sizes)
                          ++ [WorkerResizeTimeout]) in
  w_inbox r' = w_inbox r
               ++ [MsgResize (sz_width last_size) (sz_height last_size) (w_dpr r)] ∧
  w_style_width r' = pretty (sz_width last_size) +:+ "px" ∧
  w_style_height r' = pretty (sz_height last_size) +:+ "px" ∧
  w_size r' = last_size ∧
  w_isResizeScheduled r' = false.
Proof.
  intros Ht Hl. cbv zeta. unfold worker_run. rewrite fold_left_app.
  fold (worker_run r ((WorkerCall ∘ Resize) <$> sizes)).
  rewrite (worker_resizes sizes last_size r Hl).
  cbn [fold_left worker_step]. unfold worker_resize_timeout, worker_postMessage.
  simpl. by rewrite Ht.
Qed.

End WorkerFacts.

(** Outlines are rendered twice before a frame passes, and again after
    it; [drawCanvas] always asks for another frame. *)
Lemma canvas_one_frame_at_a_time_witness :
  let drawCanvas (m : gmap string ActiveOutline) := (m, true) in
  let updateScroll (m : gmap string ActiveOutline) (dx dy : Z) := m in
  let o := {| od_id := 1; od_name := "App"; od_count := 1;
              od_x := 10; od_y := 10; od_width := 50; od_height := 50;
              od_didCommit := 1 |} in
  let evs := [CanvasCall (RenderOutlines [o]); CanvasCall (RenderOutlines [o]);
              AnimationFrame; CanvasCall (RenderOutlines [o]);
              CanvasCall (ScrollBy 0 5)] in
  let r := canvas_run drawCanvas updateScroll
             (new_CanvasOutlineRenderer true
                {| sz_width := 800; sz_height := 600 |} 2) evs in
  forallb no_resize evs = true ∧
  c_frameRequests r = [2%positive] ∧
  (length (c_frameRequests r) ≤ 1)%nat ∧
  (c_animationFrameId r = None ↔ c_frameRequests r = []).
Proof.
  intros drawCanvas updateScroll o evs r.
  split; [reflexivity|]. split; [reflexivity|].
  exact (canvas_one_frame_at_a_time drawCanvas updateScroll evs
           {| sz_width := 800; sz_height := 600 |} 2 eq_refl).
Defined.

(** The window is resized three times before the timer fires. *)
Lemma canvas_resize_coalesces_witness :
  let drawCanvas (m : gmap string ActiveOutline) := (m, false) in
  let updateScroll (m : gmap string ActiveOutline) (dx dy : Z) := m in
  let sizes := [{| sz_width := 800; sz_height := 600 |};
                {| sz_width := 900; sz_height := 600 |};
                {| sz_width := 1024; sz_height := 768 |}] in
  let r := new_CanvasOutlineRenderer true
             {| sz_width := 640; sz_height := 480 |} 2 in
  let r' := canvas_run drawCanvas updateScroll r
              (((CanvasCall ∘ Resize) <$> sizes) ++ [ResizeTimeout]) in
  last sizes = Some {| sz_width := 1024; sz_height := 768 |} ∧
  canvas_width (c_canvas r') = 1024 * 2 ∧
  canvas_height (c_canvas r') = 768 * 2 ∧
  c_drawn r' = [∅].
Proof.
  intros drawCanvas updateScroll sizes r r'.
  pose proof (canvas_resize_coalesces drawCanvas updateScroll sizes
                {| sz_width := 1024; sz_height := 768 |} r eq_refl)
    as (Hw & Hh & _ & _ & Hd).
  split; [reflexivity|]. split; [exact Hw|]. split; [exact Hh|exact Hd].
Defined.

(** The same three resizes on the offloaded renderer. *)
Lemma worker_resize_coalesces_witness :
  let sizes := [{| sz_width := 800; sz_height := 600 |};
                {| sz_width := 900; sz_height := 600 |};
                {| sz_width := 1024; sz_height := 768 |}] in
  let r := new_WorkerOutlineRenderer {| sz_width := 640; sz_height := 480 |} 2 in
  let r' := worker_run r (((WorkerCall ∘ Resize) <$> sizes)
                          ++ [WorkerResizeTimeout]) in
  w_terminated r = false ∧
  last sizes = Some {| sz_width := 1024; sz_height := 768 |} ∧
  w_inbox r' = [MsgInit 1280 960 2; MsgResize 1024 768 2] ∧
  w_style_width r' = "1024px".
Proof.
  intros sizes r r'.
  pose proof (worker_resize_coalesces sizes
                {| sz_width := 1024; sz_height := 768 |} r eq_refl eq_refl)
    as (Hin & Hsw & _).
  split; [reflexivity|]. split; [reflexivity|]. split; [exact Hin|exact Hsw].
Defined.

(** ** Scroll forwarding, continued *)

(** Three scroll events in one window. *)
Lemma glue_window_witness :
  isScrollScheduled (new_ScrollGlue 0 100) = false ∧
  glue_calls
    (glue_run (new_ScrollGlue 0 100)
       (WindowScroll 0 110
        :: ((λ '(x, y), WindowScroll x y) <$> [(0, 130); (0, 90)])
        ++ [ScrollTimeout]))
  = [ScrollBy 0 10].
Proof.
  split; [reflexivity|].
  exact (glue_window (new_ScrollGlue 0 100) 0 110 [(0, 130); (0, 90)] eq_refl).
Defined.

(** ** The wire format, continued *)

Section WireFormatFacts.

Lemma fround_exact (v : Z) : Z.abs v < 2 ^ 24 → fround v = F32 v.
Proof. intros H. unfold fround. by rewrite (proj2 (Z.ltb_lt _ _) H). Qed.

Lemma outline_slots_exact (o : OutlineData) :
  fits_float32 o →
  outline_slots o
  = F32 <$> [od_id o; od_count o; od_x o; od_y o;
             od_width o; od_height o; od_didCommit o].
Proof.
  unfold fits_float32, outline_slots. intros H.
  repeat (apply Forall_cons_1 in H as [? H]).
  cbn [fmap list_fmap]. by rewrite !fround_exact.
Qed.

(** Within the range of integers a single-precision number holds
    exactly, the packing loses nothing: two lists of records that are
    packed into the same buffer and names are the same list. *)
Theorem pack_outlines_lossless (l1 l2 : list OutlineData) :
  Forall fits_float32 l1 → Forall fits_float32 l2 →
  pack_outlines l1 = pack_outlines l2 → l1 = l2.
Proof.
  rewrite !pack_outlines_eq. intros H1 H2 Heq.
  injection Heq as _ Hslots Hnames.
  revert l2 H2 Hslots Hnames.
  induction H1 as [|o1 l1 Ho1 _ IH]; intros l2 H2 Hslots Hnames.
  - by destruct l2.
  - destruct H2 as [|o2 l2 Ho2 H2]; [done|].
    rewrite !fmap_cons in Hnames. injection Hnames as Hname Hnames.
    rewrite !bind_cons in Hslots.
    apply app_inj_1 in Hslots as [Hs Hslots]; [|done].
    rewrite (outline_slots_exact o1 Ho1), (outline_slots_exact o2 Ho2) in Hs.
    cbn [fmap list_fmap] in Hs.
    f_equal; [|by apply IH].
    destruct o1, o2. simpl in *. congruence.
Qed.

End WireFormatFacts.

(** Two equal lists of one record. *)
Lemma pack_outlines_lossless_witness :
  let o := {| od_id := 1; od_name := "App"; od_count := 3;
              od_x := 1; od_y := 2; od_width := 3; od_height := 4;
              od_didCommit := 1 |} in
  Forall fits_float32 [o] ∧
  pack_outlines [o] = pack_outlines [o] ∧
  [o] = [o].
Proof.
  intros o.
  assert (Forall fits_float32 [o]) as H.
  { repeat constructor. }
  split; [exact H|]. split; [reflexivity|].
  exact (pack_outlines_lossless [o] [o] H H eq_refl).
Defined.

(** ** Pausing the overlay *)

Section InstrumentationFacts.

Variable getFiberId : Fiber → Z.
Variable Renders : Type.

Lemma host_step_paused (h : Host Renders) (ev : HostEvent Renders) :
  host_timed Renders h = new_TimedPipeline →
  match ev with
  | Rendered _ env _ _ => env_isPaused env = Some true
  | _ => True
  end →
  host_timed Renders (host_step getFiberId Renders h ev) = new_TimedPipeline.
Proof.
  intros Hp Hev. destruct ev as [env fiber renders| | |i entries]; simpl.
  - unfold onRender. rewrite Hev. simpl.
    by destruct (_ || _).
  - by rewrite Hp.
  - by rewrite Hp.
  - by rewrite Hp.
Qed.

(** While the overlay is paused the pipeline stays idle: whatever
    renders, timer ticks, frames and observer notifications occur, no
    blueprint is recorded, so the interval timer requests no frame, no
    flush is started and [renderOutlines] is never called. *)
Theorem paused_overlay_stays_idle (evs : list (HostEvent Renders)) :
  always_paused Renders evs →
  host_pipeline Renders (host_run getFiberId Renders (new_Host Renders) evs)
  = empty_pipeline.
Proof.
  intros Hevs. unfold host_run, host_pipeline.
  assert (∀ h, host_timed Renders h = new_TimedPipeline →
               host_timed Renders (fold_left (host_step getFiberId Renders) evs h)
               = new_TimedPipeline) as H.
  { induction Hevs as [|ev evs Hev _ IH]; intros h Hh; [done|].
    cbn [fold_left]. apply IH. by apply host_step_paused. }
  by rewrite H.
Qed.

End InstrumentationFacts.

(** Two renders with the overlay paused, one of them while a component is
    focused in the inspector, timer ticks and a frame. *)
Lemma paused_overlay_stays_idle_witness :
  let getFiberId (f : Fiber) := Z.pos f in
  let fiber :=
    {| fiber_ref := 1%positive; isCompositeFiber := true;
       fiber_type_string := None; getDisplayName := Some "App";
       getNearestHostFibers := [ElementNode 7%positive];
       didFiberCommit := true |} in
  let env kind :=
    {| env_isPaused := Some true; env_inspectKind := kind;
       env_log := true; env_hasOnRender := false; env_now := 1000 |} in
  let evs := [Rendered nat (env "inspect-off") fiber 1%nat; IntervalTick nat;
              Rendered nat (env "focused") fiber 2%nat; IntervalTick nat;
              FrameCallback nat] in
  always_paused nat evs ∧
  host_logged nat (host_run getFiberId nat (new_Host nat) evs) = [2%nat] ∧
  host_pipeline nat (host_run getFiberId nat (new_Host nat) evs)
  = empty_pipeline.
Proof.
  intros getFiberId fiber env evs.
  assert (always_paused nat evs) as H by (repeat constructor).
  split; [exact H|]. split; [reflexivity|].
  exact (paused_overlay_stays_idle getFiberId nat evs H).
Defined.

(** Outside that range the packing does lose: the ids [2^24] and
    [2^24 + 1] are packed into the same slot. *)
Example pack_outlines_collision :
  let o id := {| od_id := id; od_name := "App"; od_count := 1;
                 od_x := 0; od_y := 0; od_width := 1; od_height := 1;
                 od_didCommit := 0 |} in
  pack_outlines [o 16777216] = pack_outlines [o 16777217].
Proof. reflexivity. Qed.

(** ** The interval timer *)

Section TimerFacts.

Variable getFiberId : Fiber → Z.

(** A flush that waits for the elements of an empty set stays as it is
    under every admissible run of the timed pipeline. *)
Lemma stuck_flush_timed (evs : list TimedEvent) (t : TimedPipeline) (i : nat)
    (fc : FlushCycle) :
  flushes (timed_pipeline t) !! i = Some fc →
  uniqueElements (fc_resolver fc) = [] →
  phase (fc_resolver fc) = Awaiting →
  timed_admissible getFiberId t evs = true →
  flushes (timed_pipeline (timed_run getFiberId t evs)) !! i = Some fc.
Proof.
  intros Hi HU Hph. revert t Hi.
  induction evs as [|ev evs IH]; intros t Hi Hadm; [done|].
  cbn [timed_admissible] in Hadm.
  apply andb_true_iff in Hadm as [Hok Hadm].
  unfold timed_run. cbn [fold_left]. apply IH; [|done].
  destruct ev as [| |fiber|j entries]; simpl.
  - unfold interval_tick. by case_bool_decide.
  - unfold flush_frame. destruct (pending_frames t); [done|].
    apply (stuck_flush getFiberId [Flush] _ _ _ Hi HU Hph eq_refl).
  - apply (stuck_flush getFiberId [OnRender fiber] _ _ _ Hi HU Hph eq_refl).
  - apply (stuck_flush getFiberId [Intersection j entries] _ _ _ Hi HU Hph).
    cbn [pipeline_admissible]. by rewrite andb_true_r.
Qed.

(** The interval timer tests [blueprintMapKeys.size] when it requests the
    frame, not when the frame runs.  If the key set is empty by the time a
    requested frame runs (a flush has finished in between), the frame
    still calls [flushOutlines()]: a flush is started that observes
    nothing and is still waiting after every admissible continuation. *)
Theorem stale_frame_flushes_nothing (t : TimedPipeline) :
  pending_frames t ≠ 0%nat →
  blueprintMapKeys (aggregator (timed_pipeline t)) = [] →
  let i := length (flushes (timed_pipeline t)) in
  let t' := timed_step getFiberId t Frame in
  length (flushes (timed_pipeline t')) = S i ∧
  ∀ evs,
    timed_admissible getFiberId t' evs = true →
    ∃ fc,
      flushes (timed_pipeline (timed_run getFiberId t' evs)) !! i = Some fc ∧
      uniqueElements (fc_resolver fc) = [] ∧
      phase (fc_resolver fc) = Awaiting.
Proof.
  intros Hpending Hkeys. cbv zeta. simpl. unfold flush_frame.
  destruct (pending_frames t) as [|n]; [done|]. cbn [timed_pipeline].
  split.
  { simpl. rewrite length_app. simpl. lia. }
  intros evs Hadm.
  destruct (flush_of_nothing getFiberId (timed_pipeline t) Hkeys)
    as (fc & Hi & HU & Hph).
  exists fc. split; [|done].
  by apply stuck_flush_timed.
Qed.

End TimerFacts.

(** A component renders; the timer ticks, the frame starts a flush; the
    timer ticks again while the blueprint is still there; the element
    reports, which completes the flush and clears the blueprints; then
    the second frame runs. *)
Lemma stale_frame_flushes_nothing_witness :
  let getFiberId (f : Fiber) := Z.pos f in
  let fiber :=
    {| fiber_ref := 1%positive; isCompositeFiber := true;
       fiber_type_string := None; getDisplayName := Some "App";
       getNearestHostFibers := [ElementNode 7%positive];
       didFiberCommit := true |} in
  let entry :=
    {| target := 7%positive; isIntersecting := true;
       intersectionRect := new_DOMRect 10 10 50 50 |} in
  let history := [RenderTask fiber; Tick; Frame; Tick; ObserverTask 0 [entry]] in
  let t := timed_run getFiberId new_TimedPipeline history in
  let t' := timed_step getFiberId t Frame in
  timed_admissible getFiberId new_TimedPipeline (history ++ [Frame]) = true ∧
  pending_frames t ≠ 0%nat ∧
  blueprintMapKeys (aggregator (timed_pipeline t)) = [] ∧
  length (flushes (timed_pipeline t)) = 1%nat ∧
  ∃ fc,
    flushes (timed_pipeline (timed_run getFiberId t' [Tick; RenderTask fiber]))
      !! 1%nat = Some fc ∧
    uniqueElements (fc_resolver fc) = [] ∧
    phase (fc_resolver fc) = Awaiting.
Proof.
  intros getFiberId fiber entry history t t'.
  assert (pending_frames t ≠ 0%nat) as H1 by (vm_compute; lia).
  assert (blueprintMapKeys (aggregator (timed_pipeline t)) = []) as H2
    by reflexivity.
  split; [reflexivity|]. split; [exact H1|]. split; [exact H2|].
  split; [reflexivity|].
  destruct (stale_frame_flushes_nothing getFiberId t H1 H2) as [_ H].
  apply (H [Tick; RenderTask fiber]). reflexivity.
Defined.
